(** * Dictation pipeline: transcription fallback chain, local model cache,
      audio padding, smart spacing and fast paste.

    A shallow embedding of
    - [src/transcription/gpt4o-transcriber.ts] (cloud fallback chain),
    - the whisper.cpp addon ([free_model], [init_model]) with its TypeScript
      wrapper [WhisperCpp], and [LocalWhisperTranscriber] (model cache and
      PCM padding),
    - [src/input/fast-streaming-paster.ts] ([FastStreamingPaster]).

    Conventions.  A JavaScript string is its sequence of UTF-16 code units
    ([list N]); [js "..."] writes an ASCII literal.  A call that may throw
    returns a [Completion].  Calls to collaborators (network, native paste,
    clipboard, whisper.cpp) are recorded in an event list, in program order;
    what a collaborator answers is an input of the model.  [Logger] calls
    have no effect on any of the modelled state and are left out. *)

From Stdlib Require Import ZArith NArith List Bool Ascii String Lia.
From Stdlib Require Strings.Byte.
From Stdlib Require Import DecimalString.
From Stdlib Require QArith.
From stdpp Require Import base option list gmap.

Local Open Scope N_scope.

(** ** JavaScript values shared by all modules *)

Abbreviation jsstring := (list N).

Definition js (s : string) : jsstring :=
  map N_of_ascii (list_ascii_of_string s).

(** [new Error(message)] *)
Record JSError := { message : jsstring }.

Inductive Completion (A : Type) : Type :=
| Return (a : A)
| Throw (e : JSError).
Arguments Return {A} a.
Arguments Throw {A} e.

(** ECMAScript WhiteSpace and LineTerminator code units: what
    [String.prototype.trim] strips and what [\s] matches. *)
Definition isWhiteSpace (c : N) : bool :=
  (c =? 9) || (c =? 10) || (c =? 11) || (c =? 12) || (c =? 13) || (c =? 32)
  || (c =? 160) || (c =? 5760) || ((8192 <=? c) && (c <=? 8202))
  || (c =? 8232) || (c =? 8233) || (c =? 8239) || (c =? 8287)
  || (c =? 12288) || (c =? 65279).

Fixpoint trimStart (s : jsstring) : jsstring :=
  match s with
  | c :: s' => if isWhiteSpace c then trimStart s' else s
  | [] => []
  end.

Definition trimEnd (s : jsstring) : jsstring := rev (trimStart (rev s)).

Definition trim (s : jsstring) : jsstring := trimEnd (trimStart s).

(** Truthiness of a [string | null | undefined] value. *)
Definition truthy (v : option jsstring) : bool :=
  match v with
  | Some (_ :: _) => true
  | _ => false
  end.

(** [v || null] on such a value. *)
Definition orNull (v : option jsstring) : option jsstring :=
  if truthy v then v else None.

(** ** The cloud fallback chain (gpt4o-transcriber.ts) *)

Module Transcriber.

Inductive Backend := GPT4oMini | GPT4oTranscribe | Whisper1.

#[global] Instance Backend_eq_dec : EqDecision Backend.
Proof. solve_decision. Defined.

Inductive FormValue :=
| ReadStream (path : jsstring)      (* fs.createReadStream(path) *)
| Field (value : jsstring).

Abbreviation FormData := (list (jsstring * FormValue)).

(** The argument of [fetch]; [formData.getHeaders()] only adds the
    multipart content type and is not represented. *)
Record Request := {
  url : jsstring;
  method : jsstring;
  authorization : jsstring;
  body : FormData
}.

Record Response := {
  ok : bool;
  status : N;
  text : Completion jsstring        (* await response.text() *)
}.

(** What the collaborators answer during one run of the chain:
    [getOpenAIKey b] is the outcome of [secureAPI.getOpenAIKey()] inside
    backend [b], [fetch] the outcome of the HTTP call. *)
Record Cloud := {
  getOpenAIKey : Backend -> Completion jsstring;
  fetch : Request -> Completion Response
}.

Inductive Event :=
| Invoke (b : Backend) (audioFilePath : jsstring)
         (dictionaryContext : option jsstring)
| Fetch (b : Backend) (r : Request).

Definition modelName (b : Backend) : jsstring :=
  match b with
  | GPT4oMini => js "gpt-4o-mini-transcribe"
  | GPT4oTranscribe => js "gpt-4o-transcribe"
  | Whisper1 => js "whisper-1"
  end.

(** The fields appended before the hint: file, model, response_format and,
    for whisper-1 only, language. *)
Definition baseFields (b : Backend) (audioFilePath : jsstring) : FormData :=
  [ (js "file", ReadStream audioFilePath);
    (js "model", Field (modelName b));
    (js "response_format", Field (js "text")) ]
  ++ match b with
     | Whisper1 => [ (js "language", Field (js "en")) ]
     | _ => []
     end.

Definition hintLabel : jsstring := js "This audio may contain these terms: ".

(** [if (dictionaryContext) formData.append('prompt', promptHint)] *)
Definition promptFields (dictionaryContext : option jsstring) : FormData :=
  match dictionaryContext with
  | Some (c :: ctx) => [ (js "prompt", Field (hintLabel ++ c :: ctx)) ]
  | _ => []
  end.

Definition buildRequest (b : Backend) (openaiKey audioFilePath : jsstring)
    (dictionaryContext : option jsstring) : Request :=
  {| url := js "https://api.openai.com/v1/audio/transcriptions";
     method := js "POST";
     authorization := js "Bearer " ++ openaiKey;
     body := baseFields b audioFilePath ++ promptFields dictionaryContext |}.

(** The common body of the three backend functions: everything thrown
    inside [try] is caught and turned into [null]. *)
Definition transcribeWith (b : Backend) (w : Cloud) (audioFilePath : jsstring)
    (dictionaryContext : option jsstring) : list Event * option jsstring :=
  match getOpenAIKey w b with
  | Throw _ => ([Invoke b audioFilePath dictionaryContext], None)
  | Return openaiKey =>
    let request := buildRequest b openaiKey audioFilePath dictionaryContext in
    let events := [Invoke b audioFilePath dictionaryContext; Fetch b request] in
    match fetch w request with
    | Throw _ => (events, None)
    | Return response =>
      if ok response then
        match text response with
        | Return t => (events, orNull (Some (trim t)))
        | Throw _ => (events, None)
        end
      else (events, None)     (* throw new Error(`... failed: ${status}`) *)
    end
  end.

Definition transcribeWithGPT4oMini := transcribeWith GPT4oMini.
Definition transcribeWithGPT4oTranscribe := transcribeWith GPT4oTranscribe.
Definition transcribeWithWhisper1 := transcribeWith Whisper1.

Record GPT4oTranscribeResult := { result_text : option jsstring }.

(** [dictionaryContext] is what
    [nodeDictionaryService.getWordsForTranscription()] returned. *)
Definition transcribeWithBestModel (w : Cloud)
    (dictionaryContext : option jsstring) (audioFilePath : jsstring)
  : list Event * Completion GPT4oTranscribeResult :=
  let '(e1, result) := transcribeWithGPT4oMini w audioFilePath dictionaryContext in
  if truthy result then (e1, Return {| result_text := result |}) else
  let '(e2, result) := transcribeWithGPT4oTranscribe w audioFilePath dictionaryContext in
  if truthy result then (e1 ++ e2, Return {| result_text := result |}) else
  let '(e3, result) := transcribeWithWhisper1 w audioFilePath dictionaryContext in
  if truthy result then (e1 ++ e2 ++ e3, Return {| result_text := result |}) else
  (e1 ++ e2 ++ e3, Return {| result_text := None |}).

(** The fixed priority order of the chain. *)
Definition priority : list Backend := [GPT4oMini; GPT4oTranscribe; Whisper1].

(** Backends invoked by a run, in order. *)
Definition invoked (es : list Event) : list Backend :=
  omap (fun e => match e with Invoke b _ _ => Some b | _ => None end) es.

(** Requests sent by a run, in order. *)
Definition requests (es : list Event) : list (Backend * Request) :=
  omap (fun e => match e with Fetch b r => Some (b, r) | _ => None end) es.

(** A backend fails for a request when its function returns [null]:
    key lookup or HTTP call threw, status not ok, or empty text. *)
Definition fails (b : Backend) (w : Cloud) (audioFilePath : jsstring)
    (dictionaryContext : option jsstring) : Prop :=
  snd (transcribeWith b w audioFilePath dictionaryContext) = None.

(** *** Sample runs *)

#[global] Instance FormValue_eq_dec : EqDecision FormValue.
Proof. solve_decision. Defined.

(** The [model] field of a request, the second one appended. *)
Definition sentModel (r : Request) : option FormValue :=
  snd <$> body r !! 1%nat.

(** No network: every [fetch] rejects. *)
Definition offline : Cloud :=
  {| getOpenAIKey := fun _ => Return (js "sk-test");
     fetch := fun _ => Throw {| message := js "getaddrinfo ENOTFOUND" |} |}.

(** gpt-4o-mini-transcribe answers 500, gpt-4o-transcribe answers the text
    hello, whisper-1 would answer something else. *)
Definition secondAnswers : Cloud :=
  {| getOpenAIKey := fun _ => Return (js "sk-test");
     fetch := fun r =>
       if bool_decide (sentModel r = Some (Field (modelName GPT4oMini)))
       then Return {| ok := false; status := 500; text := Return [] |}
       else if bool_decide (sentModel r = Some (Field (modelName GPT4oTranscribe)))
       then Return {| ok := true; status := 200; text := Return (js "hello") |}
       else Return {| ok := true; status := 200; text := Return (js "other") |} |}.

Definition sampleAudio : jsstring := js "/tmp/dictation.wav".

End Transcriber.

(** ** Smart spacing and fast paste (fast-streaming-paster.ts) *)

Module FastStreamingPaster.

(** The static fields [lastPasteTime] and [lastPastedText]; times are
    milliseconds as returned by [Date.now()]. *)
Record PasteSession := {
  lastPasteTime : Z;
  lastPastedText : jsstring
}.

Definition initialSession : PasteSession :=
  {| lastPasteTime := 0; lastPastedText := [] |}.

Definition SPACE_TIMEOUT : Z := 10000.

(** [[.!?]] *)
Definition isSentencePunct (c : N) : bool :=
  (c =? 46) || (c =? 33) || (c =? 63).

(** The tail of the pattern, an optional double quote (code unit 34) and
    then [\s*$], matched against the whole of [s]. *)
Definition matchesClosing (s : jsstring) : bool :=
  forallb isWhiteSpace s
  || match s with
     | 34 :: s' => forallb isWhiteSpace s'
     | _ => false
     end.

(** The test of the sentence-end pattern of [addSimpleSmartSpacing] on [s]:
    some position holds one of [.!?] and the rest of the string matches the
    tail of the pattern. *)
Fixpoint endsSentence (s : jsstring) : bool :=
  match s with
  | [] => false
  | c :: s' => (isSentencePunct c && matchesClosing s') || endsSentence s'
  end.

(** [/[A-Z]/.test(c)] for a one-unit string *)
Definition isAZ (c : N) : bool := (65 <=? c) && (c <=? 90).

(** [c.toLowerCase()] for a one-unit string; the code applies it only
    behind the [isAZ] guard, where it adds 32. *)
Definition toLowerCaseAZ (c : N) : N := if isAZ c then c + 32 else c.

(** [[\s,.!?;:]] *)
Definition isWordSeparator (c : N) : bool :=
  isWhiteSpace c || (c =? 44) || (c =? 46) || (c =? 33) || (c =? 63)
  || (c =? 59) || (c =? 58).

(** [s.split(/[\s,.!?;:]+/)[0]]: the units before the first separator. *)
Fixpoint splitFirst (s : jsstring) : jsstring :=
  match s with
  | [] => []
  | c :: s' => if isWordSeparator c then [] else c :: splitFirst s'
  end.

Definition properNouns : list jsstring :=
  map js
    [ "I"; "Monday"; "Tuesday"; "Wednesday"; "Thursday"; "Friday"; "Saturday";
      "Sunday"; "January"; "February"; "March"; "April"; "May"; "June"; "July";
      "August"; "September"; "October"; "November"; "December"; "Google";
      "Apple"; "Microsoft"; "Amazon"; "Facebook"; "Twitter"; "LinkedIn";
      "GitHub"; "OpenAI"; "ChatGPT"; "Jarvis"; "CEO"; "API"; "AI"; "ML"; "USA";
      "UK"; "EU" ]%string.

(** [s.startsWith(q)] for a one-unit [q] *)
Definition startsWith (s : jsstring) (q : N) : bool :=
  match s with
  | c :: _ => c =? q
  | [] => false
  end.

Inductive Event :=
| FastPasteText (text : jsstring)            (* typingMonitor.fastPasteText(text) *)
| AppleScriptPaste (text : jsstring)         (* pbcopy, then osascript keystroke *)
| ClipboardWriteText (text : jsstring)       (* clipboard.writeText(text), now *)
| ScheduleClipboardWrite (delay : Z) (text : jsstring).  (* via setTimeout *)

(** What [require('typing_monitor')] gives. *)
Inductive TypingMonitor :=
| RequireThrows
| NoFastPasteText                            (* fastPasteText is not a function *)
| HasFastPasteText (outcome : Completion bool).

(** The collaborators' answers during one call of [pasteFast]. *)
Record Env := {
  nowSpacing : Z;                  (* Date.now() in addSimpleSmartSpacing *)
  typingMonitor : TypingMonitor;
  appleScript : Completion unit;   (* how tryAppleScriptPaste's promise settles *)
  nowPasted : Z                    (* Date.now() stored after a paste *)
}.

Definition NO_TEXT_INPUT : JSError := {| message := js "NO_TEXT_INPUT" |}.

Section WithCaseMapping.

(** [String.prototype.toUpperCase], the engine's Unicode case mapping. *)
Variable toUpperCase : jsstring -> jsstring.

Definition adjustContinuationCapitalization (text : jsstring) : jsstring :=
  match text with
  | c0 :: c1 :: rest =>
    if negb (c0 =? 32) || negb (isAZ c1) then text else
    let firstWord := splitFirst (c1 :: rest) in
    if bool_decide (firstWord ∈ properNouns) then text else
    if startsWith (trim text) 34 || startsWith (trim text) 39 then text else
    if bool_decide (firstWord = toUpperCase firstWord)
       && (1 <? length firstWord)%nat then text else
    32 :: toLowerCaseAZ c1 :: rest
  | _ => text                       (* !text || text.length < 2 *)
  end.

(** [this.lastPasteTime > 0 && timeSinceLastPaste < this.SPACE_TIMEOUT] *)
Definition sessionLive (s : PasteSession) (now : Z) : bool :=
  ((0 <? lastPasteTime s) && (now - lastPasteTime s <? SPACE_TIMEOUT))%Z.

Definition addSimpleSmartSpacing (s : PasteSession) (now : Z)
    (text : jsstring) : jsstring :=
  if sessionLive s now then
    let lastTextEndsWithSentence :=
      truthy (Some (lastPastedText s)) && endsSentence (trim (lastPastedText s)) in
    let spacedText := 32 :: text in
    if lastTextEndsWithSentence then spacedText
    else adjustContinuationCapitalization spacedText
  else text.

Definition tryNativePaste (tm : TypingMonitor) (text : jsstring)
  : list Event * Completion bool :=
  match tm with
  | RequireThrows => ([], Return false)
  | NoFastPasteText => ([], Return false)
  | HasFastPasteText outcome =>
    ([FastPasteText text],
     match outcome with
     | Return true => Return true
     | Return false => Throw NO_TEXT_INPUT
     | Throw error =>
       if bool_decide (message error = js "NO_TEXT_INPUT") then Throw error
       else Return false
     end)
  end.

Definition tryAppleScriptPaste (env : Env) (text : jsstring)
  : list Event * Completion unit :=
  ([AppleScriptPaste text], appleScript env).

(** The [catch] block of [pasteFast]: call [clipboard.writeText(smartText)]
    (should that call throw, the inner [catch] swallows it and nothing else
    changes), then re-throw [error]. *)
Definition pasteFailed (s : PasteSession) (events : list Event)
    (smartText : jsstring) (error : JSError)
  : PasteSession * list Event * Completion unit :=
  (s, events ++ [ClipboardWriteText smartText], Throw error).

(** The two success paths: record the paste, schedule the clipboard write. *)
Definition pasteDone (env : Env) (events : list Event) (smartText : jsstring)
  : PasteSession * list Event * Completion unit :=
  ({| lastPasteTime := nowPasted env; lastPastedText := smartText |},
   events ++ [ScheduleClipboardWrite 2000 smartText], Return tt).

(** [text] is [None] when a caller passes [null] or [undefined]. *)
Definition pasteFast (s : PasteSession) (env : Env) (text : option jsstring)
  : PasteSession * list Event * Completion unit :=
  match text with
  | None => (s, [], Return tt)
  | Some text =>
    if negb (truthy (Some (trim text))) then (s, [], Return tt) else
    let smartText := addSimpleSmartSpacing s (nowSpacing env) text in
    let '(e1, nativeSuccess) := tryNativePaste (typingMonitor env) smartText in
    match nativeSuccess with
    | Return true => pasteDone env e1 smartText
    | Return false =>
      let '(e2, pasted) := tryAppleScriptPaste env smartText in
      match pasted with
      | Return _ => pasteDone env (e1 ++ e2) smartText
      | Throw error => pasteFailed s (e1 ++ e2) smartText error
      end
    | Throw error => pasteFailed s e1 smartText error
    end
  end.

(** *** Notions used to state the properties *)

(** The text with its first unit lowercased the way the code does it: a
    capital A-Z becomes a-z, any other unit stays. *)
Definition lowerFirst (text : jsstring) : jsstring :=
  match text with
  | c :: rest => toLowerCaseAZ c :: rest
  | [] => []
  end.

(** The three exceptions to lowercasing, on the new text: first word in the
    allow-list, text beginning with a double or single quote, first word
    equal to its upper-casing and longer than one unit. *)
Definition keepsCapital (text : jsstring) : bool :=
  let firstWord := splitFirst text in
  bool_decide (firstWord ∈ properNouns)
  || startsWith text 34 || startsWith text 39
  || (bool_decide (firstWord = toUpperCase firstWord)
      && (1 <? length firstWord)%nat).

(** The paste attempts made inside [try] and how they end: the native
    paste, then the AppleScript paste if the native module is unavailable. *)
Definition pasteAttempts (env : Env) (smartText : jsstring)
  : list Event * Completion unit :=
  let '(e1, nativeSuccess) := tryNativePaste (typingMonitor env) smartText in
  match nativeSuccess with
  | Return true => (e1, Return tt)
  | Return false =>
    let '(e2, pasted) := tryAppleScriptPaste env smartText in
    (e1 ++ e2, pasted)
  | Throw error => (e1, Throw error)
  end.

End WithCaseMapping.

(** The case mapping on ASCII text, where [toUpperCase] only moves a-z. *)
Definition asciiToUpperCase (s : jsstring) : jsstring :=
  map (fun c => if (97 <=? c) && (c <=? 122) then c - 32 else c) s.

(** Empty or made of white space only. *)
Definition blank (text : jsstring) : bool := forallb isWhiteSpace text.

(** *** Sample sessions and environments *)

(** A field is focused and the native module pastes. *)
Definition nativeWorks (now : Z) : Env :=
  {| nowSpacing := now; typingMonitor := HasFastPasteText (Return true);
     appleScript := Return tt; nowPasted := now |}.

(** The native module is missing and the AppleScript paste runs into its
    first timer. *)
Definition bothFail (now : Z) : Env :=
  {| nowSpacing := now; typingMonitor := RequireThrows;
     appleScript := Throw {| message := js "Copy timeout" |};
     nowPasted := now |}.

(** The session left by a successful paste of World at time [t0]. *)
Definition t0 : Z := 1700000000000.

Definition afterWorld : PasteSession :=
  fst (fst (pasteFast asciiToUpperCase initialSession (nativeWorks t0)
              (Some (js "World")))).

(** *** tryAppleScriptPaste, callback by callback *)

(** The callbacks that [tryAppleScriptPaste] registers.  An exit code is
    [None] when the process ended on a signal ([code] is [null]). *)
Inductive Callback :=
| CopyClose (code : option Z)     (* copyProcess.on('close') *)
| CopyTimer                       (* the 200 ms timer *)
| PasteClose (code : option Z)    (* pasteProcess.on('close') *)
| PasteTimer.                     (* the 500 ms timer *)

Inductive Kill := KillCopy | KillPaste.

(** [`${code}`] for an exit code *)
Definition codeToString (code : option Z) : jsstring :=
  match code with
  | Some z => js (NilZero.string_of_int (Z.to_int z))
  | None => js "null"
  end.

(** The promise ([None] while pending), whether osascript was spawned, and
    the [kill] calls made so far. *)
Record Promise := {
  settled : option (Completion unit);
  pasteSpawned : bool;
  kills : list Kill
}.

Definition pending : Promise :=
  {| settled := None; pasteSpawned := false; kills := [] |}.

(** [resolve()] and [reject(error)]: only the first call settles. *)
Definition settle (p : Promise) (c : Completion unit) : Promise :=
  match settled p with
  | Some _ => p
  | None => {| settled := Some c; pasteSpawned := pasteSpawned p;
               kills := kills p |}
  end.

Definition reject (p : Promise) (msg : jsstring) : Promise :=
  settle p (Throw {| message := msg |}).

(** One callback runs.  The paste callbacks exist only once osascript was
    spawned by the close handler of pbcopy. *)
Definition runCallback (p : Promise) (cb : Callback) : Promise :=
  match cb with
  | CopyClose code =>
    if bool_decide (code = Some 0%Z)
    then {| settled := settled p; pasteSpawned := true; kills := kills p |}
    else reject p (js "Copy failed: " ++ codeToString code)
  | CopyTimer =>
    reject {| settled := settled p; pasteSpawned := pasteSpawned p;
              kills := kills p ++ [KillCopy] |} (js "Copy timeout")
  | PasteClose code =>
    if pasteSpawned p then
      if bool_decide (code = Some 0%Z) then settle p (Return tt)
      else reject p (js "Paste failed: " ++ codeToString code)
    else p
  | PasteTimer =>
    if pasteSpawned p then
      reject {| settled := settled p; pasteSpawned := pasteSpawned p;
                kills := kills p ++ [KillPaste] |} (js "Paste timeout")
    else p
  end.

Definition pasteTimeout : JSError := {| message := js "Paste timeout" |}.

(** The promise after the callbacks of [schedule] ran, in that order. *)
Definition runCallbacks (schedule : list Callback) : Promise :=
  foldl runCallback pending schedule.

End FastStreamingPaster.

(** ** The whisper.cpp addon (whisper_addon.cc) and its wrapper *)

Module WhisperAddon.

(** [struct WhisperHandle]; [ctx = None] is [nullptr].  The mutex only
    serialises callers and carries no state of its own here. *)
Record WhisperHandle := {
  ctx : option N;
  freed : bool;
  model_path : jsstring
}.

(** Calls into whisper.cpp, in program order. *)
Inductive NativeEvent :=
| whisper_init_from_file (path : jsstring) (use_gpu : bool) (result : option N)
| whisper_free (c : N).

(** The addon's heap: the handles allocated by [new WhisperHandle()], by
    address, and the address the next allocation gets. *)
Record Native := {
  handles : gmap N WhisperHandle;
  next : N;
  events : list NativeEvent
}.

Definition emptyNative : Native :=
  {| handles := ∅; next := 0; events := [] |}.

Inductive JSValue :=
| External (p : N)          (* Napi::External<WhisperHandle> *)
| Undefined
| NotExternal.              (* any other JavaScript value *)

(** The argument of [init]: [model] is [None] when missing or not a string. *)
Record InitOptions := {
  model : option jsstring;
  gpu : option bool
}.

(** [get_info]'s [loaded]: [!handle->freed && handle->ctx != nullptr] *)
Definition loaded (h : WhisperHandle) : bool :=
  negb (freed h) && bool_decide (is_Some (ctx h)).

(** [init_model]; [loadResult] is what
    [whisper_init_from_file_with_params] returns for this call. *)
Definition init_model (options : InitOptions) (loadResult : option N)
    (st : Native) : Native * Completion JSValue :=
  match model options with
  | None => (st, Throw {| message := js "Missing 'model' path in options" |})
  | Some path =>
    let use_gpu := default true (gpu options) in
    let ev := whisper_init_from_file path use_gpu loadResult in
    match loadResult with
    | None =>
      ({| handles := handles st; next := next st; events := events st ++ [ev] |},
       Throw {| message := js "Failed to load whisper model: " ++ path |})
    | Some c =>
      let handle := {| ctx := Some c; freed := false; model_path := path |} in
      ({| handles := <[next st := handle]> (handles st);
          next := next st + 1;
          events := events st ++ [ev] |},
       Return (External (next st)))
    end
  end.

(** The guarded release shared by [free_model] and the finalizer of
    [wrap_handle]: [if (!freed && ctx) { whisper_free(ctx); ctx = nullptr;
    freed = true; }] *)
Definition release (h : WhisperHandle) : WhisperHandle * list NativeEvent :=
  match ctx h with
  | Some c =>
    if negb (freed h)
    then ({| ctx := None; freed := true; model_path := model_path h |},
          [whisper_free c])
    else (h, [])
  | None => (h, [])
  end.

(** [free_model].  An [External] always points to a live handle (the
    finalizer runs only once it is unreachable); on any other address the
    model leaves the heap as it is. *)
Definition free_model (info0 : JSValue) (st : Native)
  : Native * Completion JSValue :=
  match info0 with
  | External p =>
    match handles st !! p with
    | Some h =>
      let '(h', evs) := release h in
      ({| handles := <[p := h']> (handles st);
          next := next st;
          events := events st ++ evs |},
       Return Undefined)
    | None => (st, Return Undefined)
    end
  | _ => (st, Throw {| message := js "Invalid context handle" |})
  end.

(** The finalizer installed by [wrap_handle]: release if needed, then
    [delete ptr]. *)
Definition finalize (p : N) (st : Native) : Native :=
  match handles st !! p with
  | Some h =>
    let '(_, evs) := release h in
    {| handles := delete p (handles st);
       next := next st;
       events := events st ++ evs |}
  | None => st
  end.

(** Contexts resident after a log: one more per successful
    [whisper_init_from_file], one less per [whisper_free]. *)
Fixpoint resident (log : list NativeEvent) : Z :=
  match log with
  | [] => 0
  | whisper_init_from_file _ _ (Some _) :: log' => (1 + resident log')%Z
  | whisper_init_from_file _ _ None :: log' => resident log'
  | whisper_free _ :: log' => (resident log' - 1)%Z
  end.

(** Number of [whisper_free] calls in a log. *)
Fixpoint releases (log : list NativeEvent) : nat :=
  match log with
  | [] => 0
  | whisper_free _ :: log' => S (releases log')
  | _ :: log' => releases log'
  end.

(** *** class WhisperCpp (TypeScript wrapper) *)

Record WhisperCpp := {
  handle : option JSValue;       (* null until loaded *)
  modelPath : jsstring;
  options : option bool          (* options.gpu *)
}.

Definition isLoaded (o : WhisperCpp) : bool := bool_decide (is_Some (handle o)).

(** [WhisperCpp.load]; [options.gpu !== false] *)
Definition load (o : WhisperCpp) (loadResult : option N) (st : Native)
  : WhisperCpp * Native * Completion unit :=
  match handle o with
  | Some _ => (o, st, Return tt)
  | None =>
    let opts := {| model := Some (modelPath o);
                   gpu := Some (negb (bool_decide (options o = Some false))) |} in
    match init_model opts loadResult st with
    | (st', Return h) =>
      ({| handle := Some h; modelPath := modelPath o; options := options o |},
       st', Return tt)
    | (st', Throw e) => (o, st', Throw e)
    end
  end.

(** [WhisperCpp.free] *)
Definition free (o : WhisperCpp) (st : Native)
  : WhisperCpp * Native * Completion unit :=
  match handle o with
  | Some h =>
    match free_model h st with
    | (st', Return _) =>
      ({| handle := None; modelPath := modelPath o; options := options o |},
       st', Return tt)
    | (st', Throw e) => (o, st', Throw e)
    end
  | None => (o, st, Return tt)
  end.

(** *** Sample heap *)

(** The heap after one successful [init] whose context is at address 4096,
    and the wrapper object that holds the handle. *)
Definition sampleModel : jsstring := js "/models/ggml-tiny.en.bin".

Definition oneLoaded : Native :=
  fst (init_model {| model := Some sampleModel; gpu := None |} (Some 4096)
         emptyNative).

Definition sampleWrapper : WhisperCpp :=
  {| handle := Some (External 0); modelPath := sampleModel; options := None |}.

(** *** transcribe_audio, get_info and the wrapper methods that use them *)

(** One segment as whisper.cpp reports it: [whisper_full_get_segment_text]
    ([None] is a null pointer) and the two timestamps. *)
Record WhisperSegment := {
  segment_text : option jsstring;
  segment_t0 : Z;
  segment_t1 : Z
}.

(** What [whisper_full] does in one call: its return value and the
    segments the context holds afterwards. *)
Record WhisperRun := {
  full_result : Z;
  full_segments : list WhisperSegment
}.

(** The [options] argument of [transcribe]: [audio] is [None] when it is
    missing or not a typed array, [language] and [prompt] when they are
    missing or not strings. *)
Record TranscribeOptions := {
  audio : option (list QArith_base.Q);
  language : option jsstring;
  prompt : option jsstring
}.

(** The call [whisper_full(ctx, params, pcmf32)] with the parameters the
    caller can influence. *)
Record FullCall := {
  call_ctx : N;
  call_language : jsstring;
  call_initial_prompt : option jsstring;
  call_samples : list QArith_base.Q
}.

(** An element of the [segments] array of the result. *)
Record SegmentObject := {
  seg_text : jsstring;
  seg_from : Z;
  seg_to : Z
}.

Record TranscribeResultObject := {
  res_segments : list SegmentObject;
  res_text : jsstring
}.

(** The body of the loop over the segments: one more element of the array,
    and the text appended to [full_text] when it is not null. *)
Definition collectSegment (acc : list SegmentObject * jsstring)
    (sg : WhisperSegment) : list SegmentObject * jsstring :=
  let '(segments, full_text) := acc in
  (segments ++ [{| seg_text := default [] (segment_text sg);
                   seg_from := segment_t0 sg * 10;
                   seg_to := segment_t1 sg * 10 |}],
   match segment_text sg with
   | Some t => full_text ++ t
   | None => full_text
   end).

(** [transcribe_audio].  [options] is [None] when fewer than two arguments
    are passed or the second is not an object.  The heap is only read. *)
Definition transcribe_audio (info0 : JSValue) (options : option TranscribeOptions)
    (run : WhisperRun) (st : Native)
  : list FullCall * Completion TranscribeResultObject :=
  match options with
  | None => ([], Throw {| message := js "Expected (handle, options)" |})
  | Some options =>
    match info0 with
    | External p =>
      match handles st !! p with
      | Some {| ctx := Some c; freed := false |} =>
        match audio options with
        | None =>
          ([], Throw {| message := js "Missing 'audio' Float32Array in options" |})
        | Some pcmf32 =>
          let call := {| call_ctx := c;
                         call_language := default (js "en") (language options);
                         call_initial_prompt := prompt options;
                         call_samples := pcmf32 |} in
          if bool_decide (full_result run = 0%Z) then
            let '(segments, full_text) :=
              foldl collectSegment ([], []) (full_segments run) in
            ([call], Return {| res_segments := segments; res_text := full_text |})
          else ([call], Throw {| message := js "Transcription failed" |})
        end
      | _ => ([], Throw {| message := js "Model has been freed" |})
      end
    | _ => ([], Throw {| message := js "Invalid context handle" |})
    end
  end.

(** [get_info]: [{ loaded, model }] *)
Definition get_info (info0 : JSValue) (st : Native)
  : Completion (bool * jsstring) :=
  match info0 with
  | External p =>
    match handles st !! p with
    | Some h => Return (loaded h, model_path h)
    | None => Return (false, [])
    end
  | _ => Throw {| message := js "Invalid context handle" |}
  end.

(** [WhisperCpp.transcribe]; [options.language || 'en'] *)
Definition transcribe (o : WhisperCpp) (samples : list QArith_base.Q)
    (lang promptText : option jsstring) (run : WhisperRun) (st : Native)
  : list FullCall * Completion TranscribeResultObject :=
  match handle o with
  | None => ([], Throw {| message := js "Model not loaded. Call load() first." |})
  | Some h =>
    transcribe_audio h
      (Some {| audio := Some samples;
               language := Some (default (js "en") (orNull lang));
               prompt := promptText |})
      run st
  end.

(** [WhisperCpp.getInfo]: [null] when no handle is held. *)
Definition getInfo (o : WhisperCpp) (st : Native)
  : Completion (option (bool * jsstring)) :=
  match handle o with
  | None => Return None
  | Some h =>
    match get_info h st with
    | Return i => Return (Some i)
    | Throw e => Throw e
    end
  end.

End WhisperAddon.

(** ** LocalWhisperTranscriber: the resident model and PCM padding *)

Module LocalWhisperTranscriber.
Import WhisperAddon.

(** The module-level variables.  [whisperAddon] records whether the addon
    was found when the module was initialised; [whisperInstance] is never
    assigned anything but [null] and is left out. *)
Record ModuleState := {
  whisperAddon : bool;
  whisperHandle : option JSValue;
  loadedModelId : option jsstring;
  currentModelId : option jsstring
}.

Definition initialModule (addon : bool) : ModuleState :=
  {| whisperAddon := addon; whisperHandle := None;
     loadedModelId := None; currentModelId := None |}.

Definition withHandle (m : ModuleState) (h : option JSValue)
    (l : option jsstring) : ModuleState :=
  {| whisperAddon := whisperAddon m; whisperHandle := h;
     loadedModelId := l; currentModelId := currentModelId m |}.

(** The instance: [this.modelsDir]. *)
Record Transcriber := { modelsDir : jsstring }.

(** What the file system and whisper.cpp answer during one call:
    [fs.existsSync(modelPath)] and the result of loading the model file. *)
Record ModelFiles := {
  isModelDownloaded : bool;
  loadResult : option N
}.

(** [path.join(this.modelsDir, `ggml-${modelId}.bin`)] *)
Definition getModelPath (this : Transcriber) (modelId : jsstring) : jsstring :=
  modelsDir this ++ js "/" ++ js "ggml-" ++ modelId ++ js ".bin".

Definition preloadModel (this : Transcriber) (modelId : jsstring)
    (env : ModelFiles) (st : ModuleState * Native)
  : ModuleState * Native * bool :=
  let '(m, n) := st in
  if negb (whisperAddon m) then (m, n, false) else
  if negb (isModelDownloaded env) then (m, n, false) else
  let modelPath := getModelPath this modelId in
  (* If already loaded with this model, skip *)
  if bool_decide (is_Some (whisperHandle m))
     && bool_decide (loadedModelId m = Some modelId) then (m, n, true) else
  (* Free previous model if loaded; errors of free are ignored *)
  let '(m1, n1) :=
    match whisperHandle m with
    | Some h => (withHandle m None None, fst (free_model h n))
    | None => (m, n)
    end in
  (* Load the new model *)
  match init_model {| model := Some modelPath; gpu := Some true |}
                   (loadResult env) n1 with
  | (n2, Return h) =>
    ({| whisperAddon := whisperAddon m1; whisperHandle := Some h;
        loadedModelId := Some modelId; currentModelId := Some modelId |},
     n2, true)
  | (n2, Throw _) => (withHandle m1 None None, n2, false)
  end.

Definition isModelLoaded (m : ModuleState) : bool :=
  bool_decide (is_Some (whisperHandle m)) && whisperAddon m.

Definition freeModel (st : ModuleState * Native) : ModuleState * Native :=
  let '(m, n) := st in
  match whisperHandle m with
  | Some h =>
    if whisperAddon m then (withHandle m None None, fst (free_model h n))
    else (m, n)
  | None => (m, n)
  end.

Definition loadModel (env : ModelFiles) : bool := isModelDownloaded env.

(** *** transcribeFromBuffer: padding *)

Definition sampleRate : Z := 16000.
Definition bytesPerSample : Z := 2.
Definition minDurationMs : Z := 1100.

(** [Math.ceil(a / b)] for positive [b] *)
Definition ceilDiv (a b : Z) : Z := (- ((- a) / b))%Z.

Definition minSamples : Z := ceilDiv (minDurationMs * sampleRate) 1000.
Definition minBytes : nat := Z.to_nat (minSamples * bytesPerSample).

(** [Buffer.alloc(size, fill)] *)
Definition Buffer_alloc (size : nat) (fill : Byte.byte) : list Byte.byte :=
  replicate size fill.

(** [source.copy(target, targetStart)]: the bytes of [source] that fit are
    written over [target] from [targetStart] on. *)
Definition Buffer_copy (source target : list Byte.byte) (targetStart : nat)
  : list Byte.byte :=
  take targetStart target
  ++ take (length target - targetStart) source
  ++ drop (targetStart + length source) target.

(** The value of [processedBuffer] once the padding step is done. *)
Definition processedBuffer (audioBuffer : list Byte.byte) : list Byte.byte :=
  if (length audioBuffer <? minBytes)%nat then
    let paddedBuffer := Buffer_alloc minBytes Byte.x00 in
    Buffer_copy audioBuffer paddedBuffer 0
  else audioBuffer.

(** One little-endian signed 16-bit sample. *)
Definition int16LE (lo hi : Byte.byte) : Z :=
  let u := (Z.of_N (Byte.to_N lo) + 256 * Z.of_N (Byte.to_N hi))%Z in
  if (u <? 32768)%Z then u else (u - 65536)%Z.

(** [new Int16Array(buffer, byteOffset, length / 2)] on a buffer of whole
    samples. *)
Fixpoint int16Array (b : list Byte.byte) : list Z :=
  match b with
  | lo :: hi :: b' => int16LE lo hi :: int16Array b'
  | _ => []
  end.

(** *** transcribeFromBuffer: auto-preload *)

(** [if (whisperAddon && !whisperHandle)]: load the model on first use. *)
Definition autoPreload (this : Transcriber) (modelId : jsstring)
    (env : ModelFiles) (st : ModuleState * Native) : ModuleState * Native :=
  let '(m, n) := st in
  if whisperAddon m && negb (bool_decide (is_Some (whisperHandle m))) then
    match init_model {| model := Some (getModelPath this modelId);
                        gpu := Some true |} (loadResult env) n with
    | (n', Return h) => (withHandle m (Some h) (Some modelId), n')
    | (n', Throw _) => (withHandle m None (loadedModelId m), n')
    end
  else (m, n).

(** The part of [transcribeFromBuffer] that can change the resident model.
    Nothing happens unless the model file is there; [tempFileWritten] tells
    whether [fs.writeFileSync(tempFile, wavBuffer)] returned (if it throws,
    the outer [catch] returns [null] before the auto-preload); transcription
    itself only reads the handle. *)
Definition transcribeFromBuffer_model (this : Transcriber) (modelId : jsstring)
    (env : ModelFiles) (tempFileWritten : bool) (st : ModuleState * Native)
  : ModuleState * Native :=
  if negb (isModelDownloaded env) then st
  else if negb tempFileWritten then st
  else autoPreload this modelId env st.

(** *** Histories of calls *)

Inductive Call :=
| PreloadModel (modelId : jsstring) (env : ModelFiles)
| FreeModel
| LoadModel (modelId : jsstring) (env : ModelFiles)
| TranscribeFromBuffer (modelId : jsstring) (env : ModelFiles)
                       (tempFileWritten : bool).

Definition step (this : Transcriber) (st : ModuleState * Native) (c : Call)
  : ModuleState * Native :=
  match c with
  | PreloadModel modelId env => fst (preloadModel this modelId env st)
  | FreeModel => freeModel st
  | LoadModel _ _ => st
  | TranscribeFromBuffer modelId env tempFileWritten =>
    transcribeFromBuffer_model this modelId env tempFileWritten st
  end.

Definition run (this : Transcriber) (cs : list Call)
    (st : ModuleState * Native) : ModuleState * Native :=
  foldl (step this) st cs.

(** *** Notions used to state the properties *)

(** Duration below [ms] milliseconds at 16 kHz, mono, 16 bit: the buffer
    holds fewer than [ms * 16000 * 2 / 1000] bytes. *)
Definition shorterThanMs (audioBuffer : list Byte.byte) (ms : Z) : Prop :=
  (Z.of_nat (length audioBuffer) * 1000 < ms * sampleRate * bytesPerSample)%Z.

(** At most one handle of the heap is Loaded. *)
Definition atMostOneLoaded (n : Native) : Prop :=
  forall p1 p2 h1 h2,
    handles n !! p1 = Some h1 -> loaded h1 = true ->
    handles n !! p2 = Some h2 -> loaded h2 = true -> p1 = p2.

(** At every point of a log of whisper.cpp calls, at most one context is
    resident. *)
Definition residentAtMostOne (log : list NativeEvent) : Prop :=
  forall k, (0 <= resident (take k log) <= 1)%Z.

(** How the module variables and the addon's heap fit together: the only
    handle that can be Loaded is the one [whisperHandle] holds. *)
Record consistent (st : ModuleState * Native) : Prop := {
  handles_allocated :
    forall p h, handles (snd st) !! p = Some h -> p < next (snd st);
  loaded_is_current :
    forall p h, handles (snd st) !! p = Some h -> loaded h = true ->
                whisperHandle (fst st) = Some (External p);
  current_is_loaded :
    forall v, whisperHandle (fst st) = Some v ->
              whisperAddon (fst st) = true
              /\ exists p h, v = External p
                   /\ handles (snd st) !! p = Some h /\ loaded h = true;
  resident_current :
    resident (events (snd st))
    = match whisperHandle (fst st) with Some _ => 1%Z | None => 0%Z end;
  resident_bounded : residentAtMostOne (events (snd st))
}.

(** *** Sample history *)

Definition sampleTranscriber : Transcriber := {| modelsDir := js "/models" |}.

Definition present (c : N) : ModelFiles :=
  {| isModelDownloaded := true; loadResult := Some c |}.

(** tiny.en is preloaded; base.en is asked for next. *)
Definition tinyPreloaded : list Call := [PreloadModel (js "tiny.en") (present 4096)].

(** A call that asks for model [m], finds its file and loads it without
    error (or [loadModel], which loads nothing). *)
Definition requestsModel (m : jsstring) (c : Call) : Prop :=
  match c with
  | PreloadModel m' env | TranscribeFromBuffer m' env _ =>
    m' = m /\ isModelDownloaded env = true /\ is_Some (loadResult env)
  | LoadModel _ _ => True
  | FreeModel => False
  end.

(** *** pcmToWav *)

(** The low byte of [z]. *)
Definition byteOfZ (z : Z) : Byte.byte :=
  default Byte.x00 (Byte.of_N (Z.to_N (z mod 256))).

(** The [width] bytes of [value], least significant first. *)
Definition leBytes (width : nat) (value : Z) : list Byte.byte :=
  map (fun i => byteOfZ (value / 256 ^ Z.of_nat i)) (seq 0 width).

(** [buf.writeUInt16LE(value, offset)] and [buf.writeUInt32LE(value,
    offset)] for an integer [value]: a RangeError (named here by its code)
    when the value does not fit the width or the bytes do not fit the
    buffer. *)
Definition writeUIntLE (width : nat) (buf : list Byte.byte) (value : Z)
    (offset : nat) : Completion (list Byte.byte) :=
  if (0 <=? value)%Z && (value <? 256 ^ Z.of_nat width)%Z
     && (offset + width <=? length buf)%nat
  then Return (Buffer_copy (leBytes width value) buf offset)
  else Throw {| message := js "ERR_OUT_OF_RANGE" |}.

(** [buf.write(tag, offset)] for an ASCII tag *)
Definition Buffer_write (buf : list Byte.byte) (tag : string) (offset : nat)
  : list Byte.byte :=
  Buffer_copy (list_byte_of_string tag) buf offset.

(** Sequencing of calls that may throw. *)
Definition andThen {A B} (c : Completion A) (k : A -> Completion B)
  : Completion B :=
  match c with
  | Return a => k a
  | Throw e => Throw e
  end.

(** [pcmToWav], on integer parameters with [bitsPerSample] a multiple of 8
    (its one caller passes 16000, 1, 16), where [bitsPerSample / 8] is
    exact. *)
Definition pcmToWav (pcmBuffer : list Byte.byte)
    (sampleRate numChannels bitsPerSample : Z) : Completion (list Byte.byte) :=
  let byteRate := (sampleRate * numChannels * (bitsPerSample / 8))%Z in
  let blockAlign := (numChannels * (bitsPerSample / 8))%Z in
  let dataSize := Z.of_nat (length pcmBuffer) in
  let headerSize := 44%Z in
  let fileSize := (headerSize + dataSize - 8)%Z in
  let wavBuffer := Buffer_alloc (44 + length pcmBuffer) Byte.x00 in
  let wavBuffer := Buffer_write wavBuffer "RIFF" 0 in
  andThen (writeUIntLE 4 wavBuffer fileSize 4) (fun wavBuffer =>
  let wavBuffer := Buffer_write wavBuffer "WAVE" 8 in
  let wavBuffer := Buffer_write wavBuffer "fmt " 12 in
  andThen (writeUIntLE 4 wavBuffer 16 16) (fun wavBuffer =>
  andThen (writeUIntLE 2 wavBuffer 1 20) (fun wavBuffer =>
  andThen (writeUIntLE 2 wavBuffer numChannels 22) (fun wavBuffer =>
  andThen (writeUIntLE 4 wavBuffer sampleRate 24) (fun wavBuffer =>
  andThen (writeUIntLE 4 wavBuffer byteRate 28) (fun wavBuffer =>
  andThen (writeUIntLE 2 wavBuffer blockAlign 32) (fun wavBuffer =>
  andThen (writeUIntLE 2 wavBuffer bitsPerSample 34) (fun wavBuffer =>
  let wavBuffer := Buffer_write wavBuffer "data" 36 in
  andThen (writeUIntLE 4 wavBuffer dataSize 40) (fun wavBuffer =>
  Return (Buffer_copy pcmBuffer wavBuffer 44)))))))))).

(** [const wavBuffer = this.pcmToWav(processedBuffer, 16000, 1, 16)] *)
Definition wavBuffer (audioBuffer : list Byte.byte)
  : Completion (list Byte.byte) :=
  pcmToWav (processedBuffer audioBuffer) 16000 1 16.

(** [buf.readUIntLE(offset, width)], to read a header back. *)
Definition readUIntLE (width : nat) (buf : list Byte.byte) (offset : nat) : Z :=
  foldr (fun b acc => (Z.of_N (Byte.to_N b) + 256 * acc)%Z) 0%Z
        (take width (drop offset buf)).

(** *** The samples handed to the addon *)

(** [int16Array[i] / 32768.0]: a 16-bit integer over a power of two, which
    a float32 holds exactly. *)
Definition normalize (sample : Z) : QArith_base.Q :=
  QArith_base.Qmake sample 32768.

Definition float32Array (processed : list Byte.byte) : list QArith_base.Q :=
  map normalize (int16Array processed).

(** *** The legacy variable and the methods that manage model files *)

(** [whisperInstance], declared [null] beside [currentModelId], together
    with the other module variables. *)
Record Legacy := {
  whisperInstance : option JSValue;
  vars : ModuleState
}.

Definition initialLegacy (addon : bool) : Legacy :=
  {| whisperInstance := None; vars := initialModule addon |}.

(** What the file system answers during one call: [fs.existsSync], and
    whether [unlinkSync], [rmSync] and [mkdirSync] throw. *)
Record FileSystem := {
  existsSync : jsstring -> bool;
  unlinkThrows : bool;
  rmThrows : bool;
  mkdirThrows : bool
}.

Inductive FsEvent :=
| unlinkSync (path : jsstring)
| rmSync (path : jsstring)
| mkdirSync (path : jsstring).

(** [static unloadModel] *)
Definition unloadModel (l : Legacy) : Legacy :=
  match whisperInstance l with
  | Some _ =>
    {| whisperInstance := None;
       vars := {| whisperAddon := whisperAddon (vars l);
                  whisperHandle := whisperHandle (vars l);
                  loadedModelId := loadedModelId (vars l);
                  currentModelId := None |} |}
  | None => l
  end.

(** [deleteModel]; the calls made on the file system are listed whether
    they return or throw. *)
Definition deleteModel (this : Transcriber) (modelId : jsstring)
    (fs : FileSystem) (l : Legacy) : Legacy * list FsEvent * bool :=
  let modelPath := getModelPath this modelId in
  let l' := if bool_decide (currentModelId (vars l) = Some modelId)
            then unloadModel l else l in
  if existsSync fs modelPath then
    (l', [unlinkSync modelPath], negb (unlinkThrows fs))
  else (l', [], false).

(** [clearAllModels] *)
Definition clearAllModels (this : Transcriber) (fs : FileSystem) (l : Legacy)
  : Legacy * list FsEvent * bool :=
  let l' := unloadModel l in
  if existsSync fs (modelsDir this) then
    if rmThrows fs then (l', [rmSync (modelsDir this)], false)
    else (l', [rmSync (modelsDir this); mkdirSync (modelsDir this)],
          negb (mkdirThrows fs))
  else (l', [], true).

(** The ids of [WHISPER_MODELS], in order. *)
Definition WHISPER_MODELS : list jsstring :=
  [js "tiny.en"; js "tiny"; js "base.en"; js "base"; js "small.en"; js "small"].

Definition getDownloadedModels (this : Transcriber) (fs : FileSystem)
  : list jsstring :=
  List.filter (fun id => existsSync fs (getModelPath this id)) WHISPER_MODELS.

Record Status := {
  status_modelsDir : jsstring;
  downloadedModels : list jsstring;
  currentModel : option jsstring;
  isLoaded : bool
}.

(** [getStatus] *)
Definition getStatus (this : Transcriber) (fs : FileSystem) (l : Legacy)
  : Status :=
  {| status_modelsDir := modelsDir this;
     downloadedModels := getDownloadedModels this fs;
     currentModel := currentModelId (vars l);
     isLoaded := bool_decide (is_Some (whisperInstance l)) |}.

(** Histories over all the methods that touch the module variables. *)
Inductive Method :=
| Caching (c : Call)
| UnloadModel
| DeleteModel (modelId : jsstring) (fs : FileSystem)
| ClearAllModels (fs : FileSystem).

Definition stepMethod (this : Transcriber) (st : Legacy * Native) (c : Method)
  : Legacy * Native :=
  let '(l, n) := st in
  match c with
  | Caching c =>
    let '(m', n') := step this (vars l, n) c in
    ({| whisperInstance := whisperInstance l; vars := m' |}, n')
  | UnloadModel => (unloadModel l, n)
  | DeleteModel modelId fs => (fst (fst (deleteModel this modelId fs l)), n)
  | ClearAllModels fs => (fst (fst (clearAllModels this fs l)), n)
  end.

Definition runMethods (this : Transcriber) (cs : list Method)
    (st : Legacy * Native) : Legacy * Native :=
  foldl (stepMethod this) st cs.

(** The methods that are meant to drop the model or its file. *)
Definition managesFiles (c : Method) : bool :=
  match c with
  | Caching _ => false
  | _ => true
  end.

(** A file system on which every path exists and no call throws. *)
Definition allThere : FileSystem :=
  {| existsSync := fun _ => true; unlinkThrows := false;
     rmThrows := false; mkdirThrows := false |}.

End LocalWhisperTranscriber.

(** * Properties of the cloud fallback chain *)

(** Membership in an explicit list, case by case. *)
Ltac elem_cases :=
  rewrite ?elem_of_app, ?elem_of_cons, ?elem_of_nil;
  intuition (subst; try discriminate; auto).

Section ChainProperties.
Import Transcriber.

Variable w : Cloud.
Variable audioFilePath : jsstring.
Variable dictionaryContext : option jsstring.

(** A backend function returns either [null] or a non-empty string. *)
Lemma transcribeWith_result b :
  snd (transcribeWith b w audioFilePath dictionaryContext) = None
  \/ exists c s, snd (transcribeWith b w audioFilePath dictionaryContext) = Some (c :: s).
Proof.
  unfold transcribeWith.
  destruct (getOpenAIKey w b); [|left; reflexivity].
  destruct (fetch w _) as [r|]; [|left; reflexivity].
  destruct (ok r); [|left; reflexivity].
  destruct (text r) as [t|]; [|left; reflexivity].
  simpl. unfold orNull. destruct (trim t); simpl; eauto.
Qed.

Lemma transcribeWith_truthy b :
  truthy (snd (transcribeWith b w audioFilePath dictionaryContext)) = false
  <-> fails b w audioFilePath dictionaryContext.
Proof.
  unfold fails.
  destruct (transcribeWith_result b) as [H | (c & s & H)]; rewrite H; simpl;
    split; congruence.
Qed.

(** Each backend function is entered once per call. *)
Lemma transcribeWith_invoked b :
  invoked (fst (transcribeWith b w audioFilePath dictionaryContext)) = [b].
Proof.
  unfold transcribeWith.
  destruct (getOpenAIKey w b); [|reflexivity].
  destruct (fetch w _) as [r|]; [|reflexivity].
  destruct (ok r); [|reflexivity].
  destruct (text r); reflexivity.
Qed.

Lemma invoked_app e1 e2 : invoked (e1 ++ e2) = invoked e1 ++ invoked e2.
Proof. unfold invoked. apply omap_app. Qed.

(** The chain written over the results of its three steps. *)
Lemma transcribeWithBestModel_unfold :
  let s1 := transcribeWith GPT4oMini w audioFilePath dictionaryContext in
  let s2 := transcribeWith GPT4oTranscribe w audioFilePath dictionaryContext in
  let s3 := transcribeWith Whisper1 w audioFilePath dictionaryContext in
  transcribeWithBestModel w dictionaryContext audioFilePath =
  if truthy (snd s1) then (fst s1, Return {| result_text := snd s1 |}) else
  if truthy (snd s2) then (fst s1 ++ fst s2, Return {| result_text := snd s2 |}) else
  if truthy (snd s3)
  then (fst s1 ++ fst s2 ++ fst s3, Return {| result_text := snd s3 |})
  else (fst s1 ++ fst s2 ++ fst s3, Return {| result_text := None |}).
Proof.
  unfold transcribeWithBestModel, transcribeWithGPT4oMini,
    transcribeWithGPT4oTranscribe, transcribeWithWhisper1.
  destruct (transcribeWith GPT4oMini _ _ _) as [e1 r1]; simpl.
  destruct (truthy r1); [reflexivity|].
  destruct (transcribeWith GPT4oTranscribe _ _ _) as [e2 r2]; simpl.
  destruct (truthy r2); [reflexivity|].
  destruct (transcribeWith Whisper1 _ _ _) as [e3 r3]; simpl.
  reflexivity.
Qed.

End ChainProperties.

Section ChainClaims.
Import Transcriber.

(** Every event of a chain run was emitted by one of the backend
    functions, called with the chain's own arguments. *)
Lemma chain_events_from_backends (w : Cloud) (ctx : option jsstring)
    (path : jsstring) (ev : Event) :
  ev ∈ fst (transcribeWithBestModel w ctx path) ->
  exists b, ev ∈ fst (transcribeWith b w path ctx).
Proof.
  rewrite transcribeWithBestModel_unfold. cbv zeta.
  repeat match goal with |- context [if ?c then _ else _] => destruct c end;
    simpl; rewrite ?elem_of_app; intros H;
    repeat match type of H with _ \/ _ => destruct H as [H | H] end; eauto.
Qed.

(** What a backend function emits: its own invocation and, when the key was
    obtained, the one request built from key, file and hint. *)
Lemma transcribeWith_events (b : Backend) (w : Cloud) (ctx : option jsstring)
    (path : jsstring) (ev : Event) :
  ev ∈ fst (transcribeWith b w path ctx) ->
  ev = Invoke b path ctx
  \/ exists key, getOpenAIKey w b = Return key
                 /\ ev = Fetch b (buildRequest b key path ctx).
Proof.
  unfold transcribeWith.
  destruct (getOpenAIKey w b) as [key|] eqn:K.
  - assert (E : forall r, fst (match fetch w (buildRequest b key path ctx) with
                   | Return response =>
                     if ok response
                     then match text response with
                          | Return t =>
                            ([Invoke b path ctx; Fetch b (buildRequest b key path ctx)],
                             orNull (Some (trim t)))
                          | Throw _ =>
                            ([Invoke b path ctx; Fetch b (buildRequest b key path ctx)], None)
                          end
                     else ([Invoke b path ctx; Fetch b (buildRequest b key path ctx)], None)
                   | Throw _ =>
                     ([Invoke b path ctx; Fetch b (buildRequest b key path ctx)], None)
                   end) = r ->
                 r = [Invoke b path ctx; Fetch b (buildRequest b key path ctx)]).
    { intros r <-. destruct (fetch w _) as [resp|]; [|reflexivity].
      destruct (ok resp); [|reflexivity]. destruct (text resp); reflexivity. }
    cbv zeta. rewrite (E _ eq_refl).
    rewrite !elem_of_cons, elem_of_nil. intros [-> | [-> | []]]; eauto.
  - simpl. rewrite elem_of_cons, elem_of_nil. intros [-> | []]; eauto.
Qed.

(** Whatever the collaborators answer, the backends invoked by a run are a
    non-empty initial part of the priority order: none is skipped, none is
    invoked twice. *)
Lemma chain_invoked_prefix (w : Cloud) (ctx : option jsstring)
    (path : jsstring) :
  exists k, invoked (fst (transcribeWithBestModel w ctx path))
            = take (S k) priority.
Proof.
  rewrite transcribeWithBestModel_unfold. cbv zeta.
  repeat match goal with |- context [if ?c then _ else _] => destruct c end;
    simpl; rewrite ?invoked_app, !transcribeWith_invoked;
    [exists 0%nat | exists 1%nat | exists 2%nat | exists 2%nat]; reflexivity.
Qed.

(** C2.  The chain calls the backends in their fixed priority order and
    stops at the first one that yields non-empty text: if every backend
    before [b] in the order fails and [b] returns [t], the chain returns [t],
    [t] is not empty, exactly the backends up to and including [b] were
    invoked, in order, and none of the later ones was. *)
Theorem chain_short_circuit (w : Cloud) (ctx : option jsstring)
    (path : jsstring) (pre post : list Backend) (b : Backend) (t : jsstring) :
  priority = pre ++ b :: post ->
  (forall b', b' ∈ pre -> fails b' w path ctx) ->
  snd (transcribeWith b w path ctx) = Some t ->
  let r := transcribeWithBestModel w ctx path in
  snd r = Return {| result_text := Some t |}
  /\ t <> []
  /\ invoked (fst r) = pre ++ [b]
  /\ (forall b', b' ∈ post -> b' ∉ invoked (fst r)).
Proof.
  intros Hprio Hpre Hb r.
  assert (Ht : truthy (snd (transcribeWith b w path ctx)) = true).
  { destruct (transcribeWith_result w path ctx b) as [H | (c & s & H)];
      rewrite H in Hb; [discriminate | rewrite H; reflexivity]. }
  assert (Hne : t <> []).
  { intros ->. rewrite Hb in Ht. discriminate. }
  assert (Hfail : forall b', b' ∈ pre ->
            truthy (snd (transcribeWith b' w path ctx)) = false).
  { intros b' Hin. apply transcribeWith_truthy, Hpre, Hin. }
  subst r. rewrite transcribeWithBestModel_unfold. cbv zeta.
  unfold priority in Hprio.
  destruct pre as [|p1 [|p2 [|p3 pre]]]; simplify_eq/=.
  - rewrite Ht, Hb. simpl. rewrite transcribeWith_invoked.
    repeat split; [exact Hne|]. intros b'. elem_cases.
  - rewrite (Hfail GPT4oMini) by elem_cases. rewrite Ht, Hb. simpl.
    rewrite invoked_app, !transcribeWith_invoked.
    repeat split; [exact Hne|]. intros b'. elem_cases.
  - rewrite (Hfail GPT4oMini), (Hfail GPT4oTranscribe) by elem_cases.
    rewrite Ht, Hb. simpl.
    rewrite !invoked_app, !transcribeWith_invoked.
    repeat split; [exact Hne|]. intros b'. elem_cases.
  - destruct pre; discriminate.
Qed.

(** C1, as amended.  If every backend of the chain fails for one request,
    [transcribeWithBestModel] has invoked all three in priority order and
    returns normally a result whose [text] is [null]; nothing is thrown. *)
Theorem chain_exhausted_returns_null (w : Cloud) (ctx : option jsstring)
    (path : jsstring) :
  (forall b, b ∈ priority -> fails b w path ctx) ->
  let r := transcribeWithBestModel w ctx path in
  snd r = Return {| result_text := None |}
  /\ invoked (fst r) = priority
  /\ (forall e, snd r <> Throw e).
Proof.
  intros Hall r.
  assert (Hf : forall b, truthy (snd (transcribeWith b w path ctx)) = false).
  { intros b. apply transcribeWith_truthy, Hall. unfold priority.
    destruct b; elem_cases. }
  subst r. rewrite transcribeWithBestModel_unfold. cbv zeta.
  rewrite !Hf. simpl. rewrite !invoked_app, !transcribeWith_invoked.
  repeat split. intros e; discriminate.
Qed.

(** C9.  With a non-empty dictionary context, every backend function is
    called with that same context, and every request sent is the request
    without hints plus exactly one form field, [prompt], holding the label
    followed by the context: URL, method, authorization and all other
    fields do not depend on the hints. *)
Theorem hints_sent_as_labeled_prompt (w : Cloud) (ctx path : jsstring) :
  ctx <> [] ->
  let r := transcribeWithBestModel w (Some ctx) path in
  (forall b p c, Invoke b p c ∈ fst r -> c = Some ctx)
  /\ (forall b rq, Fetch b rq ∈ fst r ->
        exists key, getOpenAIKey w b = Return key
          /\ url rq = url (buildRequest b key path None)
          /\ method rq = method (buildRequest b key path None)
          /\ authorization rq = authorization (buildRequest b key path None)
          /\ body rq = body (buildRequest b key path None)
                       ++ [(js "prompt", Field (hintLabel ++ ctx))]).
Proof.
  intros Hne r. split.
  - intros b p c Hin.
    destruct (chain_events_from_backends _ _ _ _ Hin) as (b' & Hb').
    destruct (transcribeWith_events _ _ _ _ _ Hb') as [E | (key & _ & E)];
      congruence.
  - intros b rq Hin.
    destruct (chain_events_from_backends _ _ _ _ Hin) as (b' & Hb').
    destruct (transcribeWith_events _ _ _ _ _ Hb') as [E | (key & K & E)];
      [discriminate|].
    injection E as -> ->. exists key. split; [exact K|].
    destruct ctx as [|c ctx']; [contradiction|].
    simpl. rewrite app_nil_r. repeat split.
Qed.

Lemma chain_short_circuit_witness :
  let r := transcribeWithBestModel secondAnswers None sampleAudio in
  snd r = Return {| result_text := Some (js "hello") |}
  /\ js "hello" <> []
  /\ invoked (fst r) = [GPT4oMini] ++ [GPT4oTranscribe]
  /\ (forall b', b' ∈ [Whisper1] -> b' ∉ invoked (fst r)).
Proof.
  apply (chain_short_circuit secondAnswers None sampleAudio
           [GPT4oMini] [Whisper1] GPT4oTranscribe (js "hello")).
  - reflexivity.
  - intros b' Hb'. apply list_elem_of_singleton in Hb'. subst b'.
    vm_compute. reflexivity.
  - vm_compute. reflexivity.
Defined.

Lemma chain_exhausted_returns_null_witness :
  let r := transcribeWithBestModel offline None sampleAudio in
  snd r = Return {| result_text := None |}
  /\ invoked (fst r) = priority
  /\ (forall e, snd r <> Throw e).
Proof.
  apply (chain_exhausted_returns_null offline None sampleAudio).
  intros b _. destruct b; vm_compute; reflexivity.
Defined.

(** C1 as stated fails: with the network down all three backends fail, and
    the chain returns the value [{ text: null }] instead of throwing. *)
Lemma chain_exhausted_not_raised :
  (forall b, b ∈ priority -> fails b offline sampleAudio None)
  /\ snd (transcribeWithBestModel offline None sampleAudio)
     = Return {| result_text := None |}
  /\ ~ (exists e, snd (transcribeWithBestModel offline None sampleAudio)
                  = Throw e).
Proof.
  split; [|split].
  - intros b _. destruct b; vm_compute; reflexivity.
  - vm_compute. reflexivity.
  - intros [e He]. vm_compute in He. discriminate He.
Qed.

Lemma hints_sent_as_labeled_prompt_witness :
  js "Jarvis, Raycast" <> []
  /\ let r := transcribeWithBestModel offline (Some (js "Jarvis, Raycast"))
               sampleAudio in
     (forall b p c, Invoke b p c ∈ fst r -> c = Some (js "Jarvis, Raycast"))
     /\ (forall b rq, Fetch b rq ∈ fst r ->
           exists key, getOpenAIKey offline b = Return key
             /\ url rq = url (buildRequest b key sampleAudio None)
             /\ method rq = method (buildRequest b key sampleAudio None)
             /\ authorization rq
                = authorization (buildRequest b key sampleAudio None)
             /\ body rq = body (buildRequest b key sampleAudio None)
                   ++ [(js "prompt",
                        Field (hintLabel ++ js "Jarvis, Raycast"))]).
Proof.
  split; [discriminate|].
  apply (hints_sent_as_labeled_prompt offline (js "Jarvis, Raycast")
           sampleAudio).
  discriminate.
Defined.

End ChainClaims.

(** * Properties of smart spacing and fast paste *)

Section PasterProperties.
Import FastStreamingPaster.

Variable toUpperCase : jsstring -> jsstring.

Lemma isAZ_bounds (c : N) : isAZ c = true -> 65 <= c <= 90.
Proof.
  unfold isAZ. rewrite andb_true_iff, !N.leb_le. tauto.
Qed.

Lemma isAZ_not_space (c : N) : isAZ c = true -> isWhiteSpace c = false.
Proof.
  intros H%isAZ_bounds. unfold isWhiteSpace.
  repeat match goal with
         | |- context [c =? ?k] => rewrite (proj2 (N.eqb_neq c k)) by lia
         end.
  rewrite (proj2 (N.leb_gt 8192 c)) by lia. reflexivity.
Qed.

Lemma isAZ_startsWith (c q : N) (s : jsstring) :
  isAZ c = true -> q < 65 -> startsWith (c :: s) q = false.
Proof.
  intros H%isAZ_bounds Hq. simpl. apply N.eqb_neq. lia.
Qed.

Lemma trimStart_snoc (l : jsstring) (c : N) :
  isWhiteSpace c = false -> exists l', trimStart (l ++ [c]) = l' ++ [c].
Proof.
  intros Hc. induction l as [|a l IH]; simpl.
  - rewrite Hc. exists []. reflexivity.
  - destruct (isWhiteSpace a); [exact IH|]. exists (a :: l). reflexivity.
Qed.

(** Trimming keeps a leading unit that is not white space. *)
Lemma trimEnd_cons (c : N) (s : jsstring) :
  isWhiteSpace c = false -> exists s', trimEnd (c :: s) = c :: s'.
Proof.
  intros Hc. unfold trimEnd. simpl.
  destruct (trimStart_snoc (rev s) c Hc) as (l' & ->).
  rewrite rev_app_distr. simpl. eauto.
Qed.

Lemma trimStart_blank (s : jsstring) :
  forallb isWhiteSpace s = true -> trimStart s = [].
Proof.
  induction s as [|c s IH]; simpl; [reflexivity|].
  destruct (isWhiteSpace c); simpl; [exact IH | discriminate].
Qed.

Lemma trimStart_nil_blank (s : jsstring) :
  trimStart s = [] -> forallb isWhiteSpace s = true.
Proof.
  induction s as [|c s IH]; simpl; [reflexivity|].
  destruct (isWhiteSpace c); simpl; [exact IH | discriminate].
Qed.

Lemma trimStart_idem (s : jsstring) : trimStart (trimStart s) = trimStart s.
Proof.
  induction s as [|c s IH]; simpl; [reflexivity|].
  destruct (isWhiteSpace c) eqn:E; [exact IH|]. simpl. rewrite E. reflexivity.
Qed.

(** [trim] yields the empty string exactly on blank text. *)
Lemma trim_blank (s : jsstring) : trim s = [] <-> blank s = true.
Proof.
  unfold trim, blank, trimEnd. split.
  - intros H. apply trimStart_nil_blank.
    destruct (trimStart s) as [|c s'] eqn:E; [reflexivity|].
    exfalso.
    assert (Hc : isWhiteSpace c = false).
    { destruct s as [|a s]; [discriminate|].
      pose proof (trimStart_idem (a :: s)) as Hi. rewrite E in Hi.
      simpl in Hi. destruct (isWhiteSpace c); [|reflexivity].
      assert (Hl : length (trimStart s') = length (c :: s')) by (rewrite Hi; reflexivity).
      clear -Hl. exfalso.
      assert (forall l : jsstring, (length (trimStart l) <= length l)%nat) as Hle.
      { induction l as [|x l IHl]; simpl; [lia|].
        destruct (isWhiteSpace x); simpl; lia. }
      specialize (Hle s'). simpl in Hl. lia. }
    destruct (trimEnd_cons c s' Hc) as (s'' & Hs). unfold trimEnd in Hs.
    rewrite Hs in H. discriminate.
  - intros H. rewrite (trimStart_blank s H). reflexivity.
Qed.

(** [adjustContinuationCapitalization] on a text that was just spaced. *)
Lemma adjust_spaced (text : jsstring) :
  adjustContinuationCapitalization toUpperCase (32 :: text)
  = 32 :: (if keepsCapital toUpperCase text then text else lowerFirst text).
Proof.
  destruct text as [|c rest].
  - unfold keepsCapital. simpl. rewrite andb_false_r. reflexivity.
  - unfold adjustContinuationCapitalization, keepsCapital, lowerFirst.
    change (32 =? 32) with true. cbn [negb orb].
    destruct (isAZ c) eqn:Haz; cbn [negb].
    + destruct (bool_decide (splitFirst (c :: rest) ∈ properNouns));
        [reflexivity|].
      cbn [orb].
      rewrite !(isAZ_startsWith c _ rest Haz) by lia.
      assert (Ht : exists s', trim (32 :: c :: rest) = c :: s').
      { unfold trim. simpl trimStart.
        rewrite (isAZ_not_space c Haz).
        apply trimEnd_cons, isAZ_not_space, Haz. }
      destruct Ht as (s' & ->).
      rewrite !(isAZ_startsWith c _ s' Haz) by lia.
      cbn [orb].
      destruct (bool_decide _ && _); reflexivity.
    + unfold toLowerCaseAZ. rewrite Haz.
      destruct (_ || _); reflexivity.
Qed.

Lemma pasteFast_unfold (s : PasteSession) (env : Env) (text : jsstring) :
  blank text = false ->
  let smartText := addSimpleSmartSpacing toUpperCase s (nowSpacing env) text in
  pasteFast toUpperCase s env (Some text)
  = match pasteAttempts env smartText with
    | (events, Return _) => pasteDone env events smartText
    | (events, Throw error) => pasteFailed s events smartText error
    end.
Proof.
  intros Hb smartText. unfold pasteFast.
  assert (Ht : truthy (Some (trim text)) = true).
  { destruct (trim text) eqn:E; [|reflexivity].
    apply trim_blank in E. congruence. }
  rewrite Ht. cbn [negb]. fold smartText. unfold pasteAttempts.
  destruct (tryNativePaste (typingMonitor env) smartText) as [e1 [[|]|err]];
    reflexivity.
Qed.

(** How the attempts can end in an error: the native module is there and
    reports failure (or throws NO_TEXT_INPUT itself), or it is unavailable
    and the AppleScript promise rejects. *)
Lemma pasteAttempts_throw (env : Env) (smartText : jsstring) (error : JSError) :
  snd (pasteAttempts env smartText) = Throw error <->
  snd (tryNativePaste (typingMonitor env) smartText) = Throw error
  \/ (snd (tryNativePaste (typingMonitor env) smartText) = Return false
      /\ appleScript env = Throw error).
Proof.
  unfold pasteAttempts, tryAppleScriptPaste.
  destruct (tryNativePaste (typingMonitor env) smartText) as [e1 [[|]|err]];
    simpl; intuition congruence.
Qed.

End PasterProperties.

Section PasterClaims.
Import FastStreamingPaster.

(** A successful paste at a time [t > 0] opens a session that is live for
    the next 10 000 ms. *)
Lemma live_after_paste (env : Env) (events : list Event) (smartText : jsstring)
    (now : Z) :
  (0 < nowPasted env)%Z -> (now - nowPasted env < 10000)%Z ->
  sessionLive (fst (fst (pasteDone env events smartText))) now = true.
Proof.
  intros Hpos Hwin. unfold sessionLive, pasteDone, SPACE_TIMEOUT. simpl.
  apply andb_true_iff. split; [apply Z.ltb_lt | apply Z.ltb_lt]; lia.
Qed.

(** C6.  While the session is live (a paste was recorded, and less than
    10 000 ms have passed since), the formatted text is one space followed
    by the new text, whose first unit may have been lowercased and which is
    otherwise untouched; when the session is not live the text comes back
    as it is. *)
Theorem spacing_when_live (toUpperCase : jsstring -> jsstring)
    (s : PasteSession) (now : Z) (text : jsstring) :
  (sessionLive s now = true ->
   exists text',
     addSimpleSmartSpacing toUpperCase s now text = 32 :: text'
     /\ (text' = text \/ text' = lowerFirst text)
     /\ length text' = length text)
  /\ (sessionLive s now = false ->
      addSimpleSmartSpacing toUpperCase s now text = text).
Proof.
  unfold addSimpleSmartSpacing. split; intros ->; [|reflexivity].
  destruct (truthy _ && endsSentence _).
  - exists text. auto.
  - rewrite adjust_spaced.
    destruct (keepsCapital toUpperCase text).
    + exists text. auto.
    + exists (lowerFirst text). repeat split; auto.
      destruct text; reflexivity.
Qed.

Lemma spacing_when_live_witness :
  sessionLive afterWorld (t0 + 5000) = true
  /\ exists text',
       addSimpleSmartSpacing asciiToUpperCase afterWorld (t0 + 5000) (js "there")
       = 32 :: text'
       /\ (text' = js "there" \/ text' = lowerFirst (js "there"))
       /\ length text' = length (js "there").
Proof.
  split; [reflexivity|].
  apply (proj1 (spacing_when_live asciiToUpperCase afterWorld (t0 + 5000)
                  (js "there"))).
  reflexivity.
Defined.

(** C7.  When the space was added and the trimmed previous text does not
    end a sentence, the new text follows the space with its first letter
    lowercased (a capital A-Z becomes a-z), unless its first word is in the
    allow-list, it begins with a quotation mark, or its first word equals
    its own upper-casing and is longer than one unit; in those cases it
    follows unchanged.  A text beginning with Monday is such a case. *)
Theorem continuation_capitalization (toUpperCase : jsstring -> jsstring)
    (s : PasteSession) (now : Z) (text : jsstring) :
  sessionLive s now = true ->
  endsSentence (trim (lastPastedText s)) = false ->
  addSimpleSmartSpacing toUpperCase s now text
  = 32 :: (if keepsCapital toUpperCase text then text else lowerFirst text).
Proof.
  intros Hlive Hend. unfold addSimpleSmartSpacing.
  rewrite Hlive, Hend, andb_false_r. apply adjust_spaced.
Qed.

Lemma continuation_capitalization_witness :
  sessionLive afterWorld (t0 + 5000) = true
  /\ endsSentence (trim (lastPastedText afterWorld)) = false
  /\ addSimpleSmartSpacing asciiToUpperCase afterWorld (t0 + 5000)
       (js "Monday works")
     = js " Monday works".
Proof.
  split; [reflexivity|]. split; [reflexivity|].
  etransitivity.
  - apply (continuation_capitalization asciiToUpperCase afterWorld (t0 + 5000)
             (js "Monday works")); reflexivity.
  - vm_compute. reflexivity.
Defined.

(** The cases of C7 on sample texts: an ordinary word, a single capital, a
    word in capitals, a quoted text. *)
Example continuation_samples :
  map (addSimpleSmartSpacing asciiToUpperCase afterWorld (t0 + 5000))
      [js "There you go"; js "A good one"; js "VERY good"; js "I think";
       js "'Hello' she said"]
  = [js " there you go"; js " a good one"; js " VERY good"; js " I think";
     js " 'Hello' she said"].
Proof. vm_compute. reflexivity. Qed.

(** After a sentence end the capital is kept. *)
Example new_sentence_sample :
  addSimpleSmartSpacing asciiToUpperCase
    {| lastPasteTime := t0; lastPastedText := js "Hello world." |}
    (t0 + 5000) (js "There you go")
  = js " There you go".
Proof. vm_compute. reflexivity. Qed.

(** C8.  When the paste attempts end in an error, [pasteFast] leaves the
    session as it was, calls [clipboard.writeText] with the formatted text as
    its last action, and throws that same error. *)
Theorem pasteFast_failure_backup (toUpperCase : jsstring -> jsstring)
    (s : PasteSession) (env : Env) (text : jsstring) (error : JSError) :
  blank text = false ->
  let smartText := addSimpleSmartSpacing toUpperCase s (nowSpacing env) text in
  snd (pasteAttempts env smartText) = Throw error ->
  pasteFast toUpperCase s env (Some text)
  = (s, fst (pasteAttempts env smartText) ++ [ClipboardWriteText smartText],
     Throw error).
Proof.
  intros Hb smartText Herr.
  rewrite (pasteFast_unfold toUpperCase s env text Hb). fold smartText.
  destruct (pasteAttempts env smartText) as [events [u|e]]; simpl in Herr.
  - discriminate.
  - injection Herr as ->. reflexivity.
Qed.

Lemma pasteFast_failure_backup_witness :
  blank (js "there") = false
  /\ snd (pasteAttempts (bothFail (t0 + 5000)) (js " there"))
     = Throw {| message := js "Copy timeout" |}
  /\ pasteFast asciiToUpperCase afterWorld (bothFail (t0 + 5000))
       (Some (js "there"))
     = (afterWorld,
        [AppleScriptPaste (js " there"); ClipboardWriteText (js " there")],
        Throw {| message := js "Copy timeout" |}).
Proof.
  split; [reflexivity|]. split; [reflexivity|].
  apply (pasteFast_failure_backup asciiToUpperCase afterWorld
           (bothFail (t0 + 5000)) (js "there")
           {| message := js "Copy timeout" |}); reflexivity.
Defined.

(** C10.  On a text that is empty or only white space, [pasteFast] returns
    normally, with no paste attempt, no clipboard call and the session as it
    was. *)
Theorem pasteFast_blank_noop (toUpperCase : jsstring -> jsstring)
    (s : PasteSession) (env : Env) (text : jsstring) :
  blank text = true ->
  pasteFast toUpperCase s env (Some text) = (s, [], Return tt).
Proof.
  intros Hb. unfold pasteFast.
  rewrite (proj2 (trim_blank text) Hb). reflexivity.
Qed.

Lemma pasteFast_blank_noop_witness :
  blank (js "   ") = true
  /\ pasteFast asciiToUpperCase afterWorld (nativeWorks (t0 + 5000))
       (Some (js "   "))
     = (afterWorld, [], Return tt).
Proof.
  split; [reflexivity|].
  apply (pasteFast_blank_noop asciiToUpperCase afterWorld
           (nativeWorks (t0 + 5000)) (js "   ")).
  reflexivity.
Defined.

End PasterClaims.

(** * Properties of the addon and of the resident model *)

Section AddonProperties.
Import WhisperAddon.

Lemma release_loaded (h : WhisperHandle) (c : N) :
  ctx h = Some c -> freed h = false ->
  release h = ({| ctx := None; freed := true; model_path := model_path h |},
               [whisper_free c]).
Proof. intros Hc Hf. unfold release. rewrite Hc, Hf. reflexivity. Qed.

Lemma release_not_loaded (h : WhisperHandle) :
  loaded h = false -> release h = (h, []).
Proof.
  unfold loaded, release. destruct (ctx h) as [c|]; [|reflexivity].
  destruct (freed h); [reflexivity|]. discriminate.
Qed.

Lemma loaded_true (h : WhisperHandle) :
  loaded h = true <-> freed h = false /\ exists c, ctx h = Some c.
Proof.
  unfold loaded. rewrite andb_true_iff, negb_true_iff, bool_decide_eq_true.
  unfold is_Some. tauto.
Qed.

Lemma native_eta (st : Native) :
  {| handles := handles st; next := next st; events := events st |} = st.
Proof. destruct st; reflexivity. Qed.

(** [free] on a handle that is not Loaded changes nothing and succeeds. *)
Lemma free_model_not_loaded (st : Native) (p : N) (h : WhisperHandle) :
  handles st !! p = Some h -> loaded h = false ->
  free_model (External p) st = (st, Return Undefined).
Proof.
  intros Hp Hl. unfold free_model. rewrite Hp, (release_not_loaded h Hl).
  rewrite insert_id by exact Hp. rewrite app_nil_r, native_eta. reflexivity.
Qed.

(** [free] on a Loaded handle releases its context and marks it Freed. *)
Lemma free_model_loaded (st : Native) (p : N) (h : WhisperHandle) (c : N) :
  handles st !! p = Some h -> ctx h = Some c -> freed h = false ->
  free_model (External p) st
  = ({| handles := <[p := {| ctx := None; freed := true;
                            model_path := model_path h |}]> (handles st);
        next := next st;
        events := events st ++ [whisper_free c] |},
     Return Undefined).
Proof.
  intros Hp Hc Hf. unfold free_model.
  rewrite Hp, (release_loaded h c Hc Hf). reflexivity.
Qed.

Lemma releases_app (l1 l2 : list NativeEvent) :
  releases (l1 ++ l2) = (releases l1 + releases l2)%nat.
Proof.
  induction l1 as [|[path g r|c] l1 IH]; simpl; [reflexivity| |]; lia.
Qed.

Lemma resident_app (l1 l2 : list NativeEvent) :
  resident (l1 ++ l2) = (resident l1 + resident l2)%Z.
Proof.
  induction l1 as [|[path g [r|]|c] l1 IH]; simpl; lia.
Qed.

(** The finalizer of a Freed handle releases nothing. *)
Lemma finalize_not_loaded (st : Native) (p : N) (h : WhisperHandle) :
  handles st !! p = Some h -> loaded h = false ->
  events (finalize p st) = events st.
Proof.
  intros Hp Hl. unfold finalize. rewrite Hp, (release_not_loaded h Hl).
  simpl. apply app_nil_r.
Qed.

End AddonProperties.

Section AddonClaims.
Import WhisperAddon.

(** C4.  On a Loaded handle, two calls of the addon's [free] both return
    normally; the first calls [whisper_free] on the context once, the second
    changes nothing, so the context is released exactly once.  The same
    holds for two calls of [WhisperCpp.free] on the object holding the
    handle, and the finalizer that runs afterwards releases nothing. *)
Theorem free_idempotent (st : Native) (p : N) (h : WhisperHandle) (c : N)
    (o : WhisperCpp) :
  handles st !! p = Some h -> ctx h = Some c -> freed h = false ->
  handle o = Some (External p) ->
  let r1 := free_model (External p) st in
  let r2 := free_model (External p) (fst r1) in
  let w1 := free o st in
  let w2 := free (fst (fst w1)) (snd (fst w1)) in
  (snd r1 = Return Undefined /\ snd r2 = Return Undefined
   /\ events (fst r1) = events st ++ [whisper_free c]
   /\ fst r2 = fst r1
   /\ releases (events (fst r2)) = S (releases (events st))
   /\ events (finalize p (fst r2)) = events (fst r2))
  /\ (snd w1 = Return tt /\ snd w2 = Return tt
      /\ handle (fst (fst w2)) = None
      /\ snd (fst w2) = fst r1).
Proof.
  intros Hp Hc Hf Ho r1 r2 w1 w2.
  set (h' := {| ctx := None; freed := true; model_path := model_path h |}).
  assert (E1 : r1 = ({| handles := <[p := h']> (handles st); next := next st;
                        events := events st ++ [whisper_free c] |},
                     Return Undefined)).
  { apply free_model_loaded; assumption. }
  assert (Hp' : handles (fst r1) !! p = Some h').
  { rewrite E1. simpl. apply lookup_insert_eq. }
  assert (E2 : r2 = (fst r1, Return Undefined)).
  { apply (free_model_not_loaded (fst r1) p h' Hp'). reflexivity. }
  split.
  - split; [rewrite E1; reflexivity|].
    split; [rewrite E2; reflexivity|].
    split; [rewrite E1; reflexivity|].
    split; [rewrite E2; reflexivity|].
    rewrite E2. cbn [fst]. split.
    + rewrite E1. cbn [fst events]. rewrite releases_app. simpl. lia.
    + apply (finalize_not_loaded (fst r1) p h' Hp'). reflexivity.
  - assert (W1 : w1 = ({| handle := None; modelPath := modelPath o;
                          options := options o |}, fst r1, Return tt)).
    { subst w1. unfold free. rewrite Ho. fold r1. rewrite E1. reflexivity. }
    subst w2. rewrite W1. simpl. repeat split.
Qed.

Lemma free_idempotent_witness :
  let r1 := free_model (External 0) oneLoaded in
  let r2 := free_model (External 0) (fst r1) in
  let w1 := free sampleWrapper oneLoaded in
  let w2 := free (fst (fst w1)) (snd (fst w1)) in
  (snd r1 = Return Undefined /\ snd r2 = Return Undefined
   /\ events (fst r1) = events oneLoaded ++ [whisper_free 4096]
   /\ fst r2 = fst r1
   /\ releases (events (fst r2)) = S (releases (events oneLoaded))
   /\ events (finalize 0 (fst r2)) = events (fst r2))
  /\ (snd w1 = Return tt /\ snd w2 = Return tt
      /\ handle (fst (fst w2)) = None
      /\ snd (fst w2) = fst r1).
Proof.
  apply (free_idempotent oneLoaded 0
           {| ctx := Some 4096; freed := false; model_path := sampleModel |}
           4096 sampleWrapper); reflexivity.
Defined.

End AddonClaims.

Section PaddingProperties.
Import LocalWhisperTranscriber.

Lemma minSamples_eq : minSamples = 17600%Z.
Proof. reflexivity. Qed.

Lemma minBytes_eq : Z.of_nat minBytes = 35200%Z.
Proof. vm_compute. reflexivity. Qed.

(** Below the minimum duration means below [minBytes] bytes. *)
Lemma shorterThanMs_minBytes (audioBuffer : list Byte.byte) :
  shorterThanMs audioBuffer minDurationMs
  <-> (length audioBuffer < minBytes)%nat.
Proof.
  unfold shorterThanMs, minDurationMs, sampleRate, bytesPerSample.
  pose proof minBytes_eq. lia.
Qed.

(** Copying a buffer to the start of a fresh, larger one. *)
Lemma Buffer_copy_alloc (source : list Byte.byte) (size : nat)
    (fill : Byte.byte) :
  (length source <= size)%nat ->
  Buffer_copy source (Buffer_alloc size fill) 0
  = source ++ replicate (size - length source) fill.
Proof.
  intros Hle. unfold Buffer_copy, Buffer_alloc.
  rewrite length_replicate, Nat.sub_0_r, Nat.add_0_l.
  rewrite take_0, (take_ge source size Hle), drop_replicate.
  reflexivity.
Qed.

Lemma int16Array_app (n : nat) (a b : list Byte.byte) :
  length a = (2 * n)%nat -> int16Array (a ++ b) = int16Array a ++ int16Array b.
Proof.
  revert a. induction n as [|n IH]; intros a Ha.
  - destruct a; [reflexivity | discriminate].
  - destruct a as [|lo [|hi a]]; try (simpl in Ha; lia).
    simpl. f_equal. apply IH. simpl in Ha. lia.
Qed.

Lemma int16Array_zeros (k : nat) :
  int16Array (replicate (2 * k) Byte.x00) = replicate k 0%Z.
Proof.
  induction k as [|k IH]; [reflexivity|].
  replace (2 * S k)%nat with (S (S (2 * k))) by lia.
  cbn [replicate int16Array]. rewrite IH. reflexivity.
Qed.

(** On a buffer of whole samples the padding appends zero samples up to
    [minSamples]. *)
Lemma padding_samples (audioBuffer : list Byte.byte) (n : nat) :
  length audioBuffer = (2 * n)%nat -> (Z.of_nat n < minSamples)%Z ->
  int16Array (processedBuffer audioBuffer)
  = int16Array audioBuffer ++ replicate (Z.to_nat minSamples - n) 0%Z.
Proof.
  intros Hlen Hn. unfold processedBuffer.
  pose proof minBytes_eq as Hb. rewrite minSamples_eq in *.
  assert (Hlt : (length audioBuffer <? minBytes)%nat = true).
  { apply Nat.ltb_lt. lia. }
  rewrite Hlt, Buffer_copy_alloc by lia.
  rewrite (int16Array_app n) by exact Hlen.
  replace (minBytes - length audioBuffer)%nat
    with (2 * (Z.to_nat 17600 - n))%nat by lia.
  rewrite int16Array_zeros. reflexivity.
Qed.

(** C3.  A buffer shorter than 1100 ms at 16 kHz, mono, 16 bit is replaced
    by a buffer of exactly 1100 ms (35 200 bytes, 17 600 samples) that
    starts with the original bytes and is zero after them; a buffer of
    1100 ms or more is passed on as it is. *)
Theorem padding_to_minimum (audioBuffer : list Byte.byte) :
  (shorterThanMs audioBuffer 1100 ->
   processedBuffer audioBuffer
   = audioBuffer ++ replicate (minBytes - length audioBuffer) Byte.x00
   /\ length (processedBuffer audioBuffer) = minBytes
   /\ (Z.of_nat minBytes * 1000 = 1100 * sampleRate * bytesPerSample)%Z)
  /\ (~ shorterThanMs audioBuffer 1100 ->
      processedBuffer audioBuffer = audioBuffer).
Proof.
  change 1100%Z with minDurationMs. rewrite shorterThanMs_minBytes.
  unfold processedBuffer. split; intros H.
  - rewrite (proj2 (Nat.ltb_lt _ _) H).
    rewrite Buffer_copy_alloc by lia.
    split; [reflexivity|]. split; [|reflexivity].
    rewrite length_app, length_replicate. lia.
  - rewrite (proj2 (Nat.ltb_ge _ _)) by lia. reflexivity.
Qed.

Lemma padding_to_minimum_witness :
  shorterThanMs [Byte.x01; Byte.x02; Byte.xff; Byte.x7f] 1100
  /\ processedBuffer [Byte.x01; Byte.x02; Byte.xff; Byte.x7f]
     = [Byte.x01; Byte.x02; Byte.xff; Byte.x7f]
       ++ replicate (minBytes - 4) Byte.x00
  /\ length (processedBuffer [Byte.x01; Byte.x02; Byte.xff; Byte.x7f])
     = minBytes.
Proof.
  assert (Hs : shorterThanMs [Byte.x01; Byte.x02; Byte.xff; Byte.x7f] 1100).
  { unfold shorterThanMs. vm_compute. reflexivity. }
  split; [exact Hs|].
  destruct (proj1 (padding_to_minimum
                     [Byte.x01; Byte.x02; Byte.xff; Byte.x7f]) Hs)
    as (Hp & Hl & _).
  split; [exact Hp | exact Hl].
Defined.

End PaddingProperties.

Section ResidentModel.
Import WhisperAddon LocalWhisperTranscriber.

Variable this : Transcriber.

Lemma residentAtMostOne_snoc (log : list NativeEvent) (ev : NativeEvent) :
  residentAtMostOne log ->
  (0 <= resident (log ++ [ev]) <= 1)%Z ->
  residentAtMostOne (log ++ [ev]).
Proof.
  intros Hlog Hev k.
  destruct (decide (k <= length log)%nat) as [Hk | Hk].
  - rewrite take_app_le by exact Hk. apply Hlog.
  - rewrite take_ge by (rewrite length_app; simpl; lia). exact Hev.
Qed.

Lemma consistent_initial (addon : bool) :
  consistent (initialModule addon, emptyNative).
Proof.
  split; simpl.
  - intros p h H. rewrite lookup_empty in H. discriminate.
  - intros p h H. rewrite lookup_empty in H. discriminate.
  - intros v H. discriminate.
  - reflexivity.
  - intros k. rewrite take_nil. simpl. lia.
Qed.

(** Freeing the current handle: its context is released, and no handle is
    Loaded afterwards. *)
Lemma consistent_free (m : ModuleState) (n : Native) (v : JSValue) :
  consistent (m, n) -> whisperHandle m = Some v ->
  consistent (withHandle m None None, fst (free_model v n))
  /\ exists c, events (fst (free_model v n)) = events n ++ [whisper_free c].
Proof.
  intros [Ha Hl Hc Hr Hb] Hv. simpl in *.
  destruct (Hc v Hv) as (_ & p & h & -> & Hp & Hload).
  destruct (proj1 (loaded_true h) Hload) as (Hf & c & Hctx).
  rewrite (free_model_loaded n p h c Hp Hctx Hf). simpl.
  rewrite Hv in Hr.
  split; [|eauto].
  split; simpl.
  - intros p' h' H. destruct (decide (p = p')) as [<- | Hne].
    + eapply Ha, Hp.
    + rewrite lookup_insert_ne in H by exact Hne. eapply Ha, H.
  - intros p' h' H Hl'. exfalso. destruct (decide (p = p')) as [<- | Hne].
    + rewrite lookup_insert_eq in H. injection H as <-. discriminate Hl'.
    + rewrite lookup_insert_ne in H by exact Hne.
      specialize (Hl p' h' H Hl'). congruence.
  - intros v' H. discriminate.
  - rewrite resident_app. simpl. lia.
  - apply residentAtMostOne_snoc; [exact Hb|].
    rewrite resident_app. simpl. lia.
Qed.

(** Loading while no handle is held: one handle is Loaded afterwards when
    the load succeeds, none when it fails. *)
Lemma consistent_init (m : ModuleState) (n : Native) (path : jsstring)
    (r : option N) (l l' cur : option jsstring) :
  consistent (m, n) -> whisperHandle m = None -> whisperAddon m = true ->
  match init_model {| model := Some path; gpu := Some true |} r n with
  | (n', Return h) =>
    consistent ({| whisperAddon := whisperAddon m; whisperHandle := Some h;
                   loadedModelId := l; currentModelId := cur |}, n')
  | (n', Throw _) => consistent (withHandle m None l', n')
  end
  /\ events (fst (init_model {| model := Some path; gpu := Some true |} r n))
     = events n ++ [whisper_init_from_file path true r].
Proof.
  intros [Ha Hl Hc Hr Hb] Hv Hon. simpl in *. rewrite Hv in Hr.
  unfold init_model. simpl. destruct r as [c|]; simpl.
  - split; [|reflexivity]. split; simpl.
    + intros p h H. destruct (decide (next n = p)) as [<- | Hne]; [lia|].
      rewrite lookup_insert_ne in H by exact Hne.
      specialize (Ha p h H). lia.
    + intros p h H Hl'. destruct (decide (next n = p)) as [<- | Hne];
        [reflexivity|].
      rewrite lookup_insert_ne in H by exact Hne.
      specialize (Hl p h H Hl'). congruence.
    + intros v [= <-]. split; [exact Hon|].
      eexists _, _. split; [reflexivity|].
      split; [apply lookup_insert_eq | reflexivity].
    + rewrite resident_app. simpl. lia.
    + apply residentAtMostOne_snoc; [exact Hb|].
      rewrite resident_app. simpl. lia.
  - split; [|reflexivity]. split; simpl.
    + exact Ha.
    + intros p h H Hl'. specialize (Hl p h H Hl'). congruence.
    + intros v H. discriminate.
    + rewrite resident_app. simpl. lia.
    + apply residentAtMostOne_snoc; [exact Hb|].
      rewrite resident_app. simpl. lia.
Qed.

(** [consistent] looks at the handle and the addon flag only. *)
Lemma consistent_ext (m m' : ModuleState) (n : Native) :
  whisperAddon m' = whisperAddon m -> whisperHandle m' = whisperHandle m ->
  consistent (m, n) -> consistent (m', n).
Proof.
  intros Ea Eh [Ha Hl Hc Hr Hb]. split; simpl in *; rewrite ?Ea, ?Eh; auto.
Qed.

Lemma consistent_preloadModel (modelId : jsstring) (env : ModelFiles)
    (st : ModuleState * Native) :
  consistent st -> consistent (fst (preloadModel this modelId env st)).
Proof.
  destruct st as [m n]. intros Hst. unfold preloadModel.
  destruct (whisperAddon m) eqn:Hon; [|exact Hst]. cbn [negb].
  destruct (isModelDownloaded env); [|exact Hst]. cbn [negb].
  destruct (bool_decide _ && bool_decide _); [exact Hst|].
  destruct (whisperHandle m) as [v|] eqn:Hv.
  - destruct (consistent_free m n v Hst Hv) as (Hfree & _).
    pose proof (consistent_init (withHandle m None None) (fst (free_model v n))
                  (getModelPath this modelId) (loadResult env)
                  (Some modelId) None (Some modelId) Hfree eq_refl Hon)
      as (Hinit & _).
    destruct (init_model _ _ _) as [n2 [h|e]]; exact Hinit.
  - pose proof (consistent_init m n (getModelPath this modelId)
                  (loadResult env) (Some modelId) None (Some modelId)
                  Hst Hv Hon) as (Hinit & _).
    destruct (init_model _ _ _) as [n2 [h|e]]; [exact Hinit|].
    revert Hinit. apply consistent_ext; reflexivity.
Qed.

Lemma consistent_freeModel (st : ModuleState * Native) :
  consistent st -> consistent (freeModel st).
Proof.
  destruct st as [m n]. intros Hst. unfold freeModel.
  destruct (whisperHandle m) as [v|] eqn:Hv; [|exact Hst].
  destruct (whisperAddon m); [|exact Hst].
  apply (consistent_free m n v Hst Hv).
Qed.

Lemma consistent_transcribeFromBuffer (modelId : jsstring) (env : ModelFiles)
    (tempFileWritten : bool) (st : ModuleState * Native) :
  consistent st ->
  consistent (transcribeFromBuffer_model this modelId env tempFileWritten st).
Proof.
  destruct st as [m n]. intros Hst. unfold transcribeFromBuffer_model.
  destruct (isModelDownloaded env); [|exact Hst]. cbn [negb].
  destruct tempFileWritten; [|exact Hst]. cbn [negb].
  unfold autoPreload.
  destruct (whisperAddon m) eqn:Hon; [|exact Hst].
  destruct (whisperHandle m) as [v|] eqn:Hv; [exact Hst|]. simpl.
  pose proof (consistent_init m n (getModelPath this modelId)
                (loadResult env) (Some modelId) (loadedModelId m)
                (currentModelId m) Hst Hv Hon) as (Hinit & _).
  destruct (init_model _ _ _) as [n2 [h|e]]; exact Hinit.
Qed.

Lemma consistent_step (c : Call) (st : ModuleState * Native) :
  consistent st -> consistent (step this st c).
Proof.
  destruct c; simpl.
  - apply consistent_preloadModel.
  - apply consistent_freeModel.
  - auto.
  - apply consistent_transcribeFromBuffer.
Qed.

Lemma consistent_run (cs : list Call) (st : ModuleState * Native) :
  consistent st -> consistent (run this cs st).
Proof.
  revert st. induction cs as [|c cs IH]; intros st Hst; [exact Hst|].
  apply IH, consistent_step, Hst.
Qed.

Lemma consistent_atMostOneLoaded (st : ModuleState * Native) :
  consistent st -> atMostOneLoaded (snd st).
Proof.
  intros [_ Hl _ _ _] p1 p2 h1 h2 H1 L1 H2 L2.
  pose proof (Hl p1 h1 H1 L1). pose proof (Hl p2 h2 H2 L2). congruence.
Qed.

(** Preloading while another model is held: the old context is released,
    then the new model file is loaded. *)
Lemma preloadModel_frees_first (modelId : jsstring) (env : ModelFiles)
    (st : ModuleState * Native) (v : JSValue) :
  consistent st ->
  whisperHandle (fst st) = Some v ->
  loadedModelId (fst st) <> Some modelId ->
  isModelDownloaded env = true ->
  exists c,
    events (snd (fst (preloadModel this modelId env st)))
    = events (snd st)
      ++ [whisper_free c;
          whisper_init_from_file (getModelPath this modelId) true
            (loadResult env)].
Proof.
  destruct st as [m n]. simpl. intros Hst Hv Hne Hdl.
  destruct (current_is_loaded _ Hst v Hv) as (Hon & _). simpl in Hon.
  unfold preloadModel. rewrite Hon, Hdl. cbn [negb].
  rewrite (bool_decide_eq_false_2 (loadedModelId m = Some modelId)) by exact Hne.
  rewrite andb_false_r, Hv.
  destruct (consistent_free m n v Hst Hv) as (Hfree & c & Hev).
  pose proof (consistent_init (withHandle m None None) (fst (free_model v n))
                (getModelPath this modelId) (loadResult env)
                (Some modelId) None (Some modelId) Hfree eq_refl Hon)
    as (_ & Hinit).
  exists c.
  destruct (init_model _ _ _) as [n2 [h|e]]; simpl in *;
    rewrite Hinit, Hev, <- app_assoc; reflexivity.
Qed.

End ResidentModel.

Section ResidentModelClaim.
Import WhisperAddon LocalWhisperTranscriber.

(** C5.  After any history of [preloadModel], [freeModel], [loadModel] and
    [transcribeFromBuffer] calls, at most one handle of the addon is Loaded
    and at no point of the log of whisper.cpp calls was more than one
    context resident; and when [preloadModel] is called for a downloaded
    model while a handle for another model is held, it releases the held
    context first and only then loads the new model file. *)
Theorem single_resident_model (this : Transcriber) (addon : bool)
    (cs : list Call) (modelId : jsstring) (env : ModelFiles) :
  let st := run this cs (initialModule addon, emptyNative) in
  atMostOneLoaded (snd st)
  /\ residentAtMostOne (events (snd st))
  /\ residentAtMostOne (events (snd (fst (preloadModel this modelId env st))))
  /\ (forall v, whisperHandle (fst st) = Some v ->
        loadedModelId (fst st) <> Some modelId ->
        isModelDownloaded env = true ->
        exists c,
          events (snd (fst (preloadModel this modelId env st)))
          = events (snd st)
            ++ [whisper_free c;
                whisper_init_from_file (getModelPath this modelId) true
                  (loadResult env)]).
Proof.
  intros st.
  assert (Hst : consistent st).
  { apply consistent_run, consistent_initial. }
  split; [apply consistent_atMostOneLoaded, Hst|].
  split; [apply (resident_bounded _ Hst)|].
  split.
  - apply (resident_bounded _ (consistent_preloadModel this modelId env st Hst)).
  - intros v Hv Hne Hdl.
    apply (preloadModel_frees_first this modelId env st v Hst Hv Hne Hdl).
Qed.

Lemma single_resident_model_witness :
  let st := run sampleTranscriber tinyPreloaded (initialModule true, emptyNative) in
  whisperHandle (fst st) = Some (External 0)
  /\ loadedModelId (fst st) <> Some (js "base.en")
  /\ exists c,
       events (snd (fst (preloadModel sampleTranscriber (js "base.en")
                           (present 8192) st)))
       = events (snd st)
         ++ [whisper_free c;
             whisper_init_from_file
               (getModelPath sampleTranscriber (js "base.en")) true
               (loadResult (present 8192))].
Proof.
  split; [reflexivity|]. split; [discriminate|].
  apply (proj2 (proj2 (proj2
           (single_resident_model sampleTranscriber true tinyPreloaded
              (js "base.en") (present 8192))))
           (External 0)).
  - reflexivity.
  - discriminate.
  - reflexivity.
Defined.

(** The sample history, run: tiny.en is released before base.en is loaded. *)
Example switch_model_log :
  events (snd (run sampleTranscriber
                 (tinyPreloaded ++ [PreloadModel (js "base.en") (present 8192)])
                 (initialModule true, emptyNative)))
  = [whisper_init_from_file (js "/models/ggml-tiny.en.bin") true (Some 4096);
     whisper_free 4096;
     whisper_init_from_file (js "/models/ggml-base.en.bin") true (Some 8192)].
Proof. vm_compute. reflexivity. Qed.

End ResidentModelClaim.

(** * Further properties of the cloud fallback chain *)

Section TrimProperties.

Lemma trimStart_length (l : jsstring) :
  (length (trimStart l) <= length l)%nat.
Proof.
  induction l as [|x l IH]; simpl; [lia|].
  destruct (isWhiteSpace x); simpl; lia.
Qed.

(** A string that [trimStart] leaves alone starts with a unit that is not
    white space. *)
Lemma trimStart_fixed_head (c : N) (s : jsstring) :
  trimStart (c :: s) = c :: s -> isWhiteSpace c = false.
Proof.
  simpl. destruct (isWhiteSpace c); [|reflexivity].
  intros H. pose proof (trimStart_length s) as Hl. rewrite H in Hl.
  simpl in Hl. lia.
Qed.

Lemma trimEnd_idem (s : jsstring) : trimEnd (trimEnd s) = trimEnd s.
Proof.
  unfold trimEnd. rewrite rev_involutive, trimStart_idem. reflexivity.
Qed.

Lemma trimStart_trimEnd (s : jsstring) :
  trimStart s = s -> trimStart (trimEnd s) = trimEnd s.
Proof.
  destruct s as [|c s]; [reflexivity|].
  intros H%trimStart_fixed_head.
  destruct (trimEnd_cons c s H) as (s' & ->). simpl. rewrite H. reflexivity.
Qed.

(** Trimming twice is trimming once. *)
Lemma trim_idem (s : jsstring) : trim (trim s) = trim s.
Proof.
  unfold trim.
  rewrite (trimStart_trimEnd (trimStart s) (trimStart_idem s)).
  apply trimEnd_idem.
Qed.

End TrimProperties.

Section ChainExtras.
Import Transcriber.

(** What a backend function returns is a trimmed, non-empty string. *)
Lemma transcribeWith_trimmed (b : Backend) (w : Cloud) (path : jsstring)
    (ctx : option jsstring) (t : jsstring) :
  snd (transcribeWith b w path ctx) = Some t -> t <> [] /\ trim t = t.
Proof.
  unfold transcribeWith.
  destruct (getOpenAIKey w b); [|discriminate].
  destruct (fetch w _) as [r|]; [|discriminate].
  destruct (ok r); [|discriminate].
  destruct (text r) as [body|]; [|discriminate].
  simpl. unfold orNull. destruct (trim body) as [|c s] eqn:E; simpl;
    [discriminate|].
  intros [= <-]. split; [discriminate|]. rewrite <- E. apply trim_idem.
Qed.

(** X1.  [transcribeWithBestModel] always returns normally.  Its [text] is
    [null] exactly when all three backends failed; otherwise it is the text
    of a backend that was invoked, and that text is not empty and carries
    no white space at either end. *)
Theorem chain_result_characterised (w : Cloud) (ctx : option jsstring)
    (path : jsstring) :
  let r := transcribeWithBestModel w ctx path in
  exists res,
    snd r = Return res
    /\ (result_text res = None <-> forall b, fails b w path ctx)
    /\ (forall t, result_text res = Some t ->
          t <> [] /\ trim t = t
          /\ exists b, b ∈ invoked (fst r)
                       /\ snd (transcribeWith b w path ctx) = Some t).
Proof.
  intros r. subst r. rewrite transcribeWithBestModel_unfold. cbv zeta.
  destruct (truthy (snd (transcribeWith GPT4oMini w path ctx))) eqn:T1;
    [|destruct (truthy (snd (transcribeWith GPT4oTranscribe w path ctx))) eqn:T2;
      [|destruct (truthy (snd (transcribeWith Whisper1 w path ctx))) eqn:T3]];
    eexists; (split; [reflexivity|]); cbn [fst snd result_text];
    rewrite ?invoked_app, ?transcribeWith_invoked.
  - split.
    + split; intros H.
      * rewrite H in T1. discriminate.
      * rewrite (H GPT4oMini) in T1. discriminate.
    + intros t Ht. destruct (transcribeWith_trimmed _ _ _ _ _ Ht) as (? & ?).
      repeat split; auto. exists GPT4oMini. split; [elem_cases | exact Ht].
  - split.
    + split; intros H.
      * rewrite H in T2. discriminate.
      * rewrite (H GPT4oTranscribe) in T2. discriminate.
    + intros t Ht. destruct (transcribeWith_trimmed _ _ _ _ _ Ht) as (? & ?).
      repeat split; auto. exists GPT4oTranscribe. split; [elem_cases | exact Ht].
  - split.
    + split; intros H.
      * rewrite H in T3. discriminate.
      * rewrite (H Whisper1) in T3. discriminate.
    + intros t Ht. destruct (transcribeWith_trimmed _ _ _ _ _ Ht) as (? & ?).
      repeat split; auto. exists Whisper1. split; [elem_cases | exact Ht].
  - split.
    + split; [|reflexivity]. intros _ b.
      apply transcribeWith_truthy. destruct b; assumption.
    + intros t Ht. discriminate.
Qed.

(** X2.  Whatever the collaborators answer, the backends a run invokes are
    a non-empty initial part of the fixed order: gpt-4o-mini-transcribe is
    always tried, none is skipped and none is invoked twice. *)
Theorem chain_invokes_initial_part (w : Cloud) (ctx : option jsstring)
    (path : jsstring) :
  let tried := invoked (fst (transcribeWithBestModel w ctx path)) in
  (exists k, tried = take (S k) priority)
  /\ GPT4oMini ∈ tried
  /\ NoDup tried.
Proof.
  intros tried. destruct (chain_invoked_prefix w ctx path) as (k & Hk).
  fold tried in Hk. split; [eauto|]. rewrite Hk. split.
  - simpl. elem_cases.
  - unfold priority.
    destruct k as [|[|[|k]]]; simpl; repeat constructor; elem_cases.
Qed.

(** A request of a run, written out. *)
Lemma chain_request_shape (w : Cloud) (ctx : option jsstring)
    (path : jsstring) (b : Backend) (rq : Request) :
  Fetch b rq ∈ fst (transcribeWithBestModel w ctx path) ->
  exists key, getOpenAIKey w b = Return key /\ rq = buildRequest b key path ctx.
Proof.
  intros Hin.
  destruct (chain_events_from_backends _ _ _ _ Hin) as (b' & Hb').
  destruct (transcribeWith_events _ _ _ _ _ Hb') as [E | (key & K & E)];
    [discriminate|].
  injection E as -> ->. eauto.
Qed.

(** X3.  When the dictionary context is [undefined] or the empty string, no
    request of the run has a [prompt] field: each carries the file, the
    model name and the response format, and for whisper-1 the language,
    and nothing else. *)
Theorem no_hints_no_prompt (w : Cloud) (ctx : option jsstring)
    (path : jsstring) (b : Backend) (rq : Request) :
  truthy ctx = false ->
  Fetch b rq ∈ fst (transcribeWithBestModel w ctx path) ->
  body rq = baseFields b path
  /\ (forall v, (js "prompt", v) ∉ body rq)
  /\ ((js "language", Field (js "en")) ∈ body rq <-> b = Whisper1).
Proof.
  intros Hctx Hin.
  destruct (chain_request_shape w ctx path b rq Hin) as (key & _ & ->).
  assert (Hp : promptFields ctx = []).
  { destruct ctx as [[|c s]|]; [reflexivity | discriminate | reflexivity]. }
  simpl. rewrite Hp, app_nil_r. split; [reflexivity|].
  split.
  - intros v. unfold baseFields. destruct b; elem_cases;
      match goal with H : (_, _) = (_, _) |- _ => vm_compute in H; discriminate H end.
  - unfold baseFields. destruct b; split; intros H; try reflexivity;
      try discriminate; revert H; elem_cases;
      match goal with H : (_, _) = (_, _) |- _ => vm_compute in H; discriminate H end.
Qed.

Lemma no_hints_no_prompt_witness :
  truthy (Some []) = false
  /\ Fetch Whisper1 (buildRequest Whisper1 (js "sk-test") sampleAudio (Some []))
     ∈ fst (transcribeWithBestModel offline (Some []) sampleAudio)
  /\ body (buildRequest Whisper1 (js "sk-test") sampleAudio (Some []))
     = baseFields Whisper1 sampleAudio.
Proof.
  assert (Hin : Fetch Whisper1
                  (buildRequest Whisper1 (js "sk-test") sampleAudio (Some []))
                ∈ fst (transcribeWithBestModel offline (Some []) sampleAudio)).
  { vm_compute. do 5 apply list_elem_of_further. apply list_elem_of_here. }
  split; [reflexivity|]. split; [exact Hin|].
  apply (no_hints_no_prompt offline (Some []) sampleAudio Whisper1 _
           eq_refl Hin).
Defined.

(** X4.  A backend whose API key cannot be obtained sends nothing: if the
    key lookup throws inside every backend, the run makes no HTTP request
    at all, still invokes the three backends in order, and returns a
    [null] text. *)
Theorem no_key_no_request (w : Cloud) (ctx : option jsstring)
    (path : jsstring) :
  (forall b, exists e, getOpenAIKey w b = Throw e) ->
  let r := transcribeWithBestModel w ctx path in
  requests (fst r) = []
  /\ invoked (fst r) = priority
  /\ snd r = Return {| result_text := None |}.
Proof.
  intros Hkey r.
  assert (E : forall b, transcribeWith b w path ctx = ([Invoke b path ctx], None)).
  { intros b. destruct (Hkey b) as (e & He). unfold transcribeWith.
    rewrite He. reflexivity. }
  subst r. rewrite transcribeWithBestModel_unfold. cbv zeta.
  rewrite !E. simpl. repeat split.
Qed.

Lemma no_key_no_request_witness :
  let w := {| getOpenAIKey := fun _ => Throw {| message := js "No OpenAI key" |};
              fetch := fetch secondAnswers |} in
  let r := transcribeWithBestModel w None sampleAudio in
  requests (fst r) = []
  /\ invoked (fst r) = priority
  /\ snd r = Return {| result_text := None |}.
Proof.
  apply (no_key_no_request
           {| getOpenAIKey := fun _ => Throw {| message := js "No OpenAI key" |};
              fetch := fetch secondAnswers |} None sampleAudio).
  intros b. eexists. reflexivity.
Defined.

End ChainExtras.

(** * Further properties of smart spacing and fast paste *)

Section SentenceEnd.
Import FastStreamingPaster.

(** The sentence-end test, as a split of the string. *)
Lemma endsSentence_split (s : jsstring) :
  endsSentence s = true <->
  exists pre p tail, s = pre ++ p :: tail
                     /\ isSentencePunct p = true /\ matchesClosing tail = true.
Proof.
  induction s as [|c s IH]; simpl.
  - split; [discriminate|]. intros (pre & p & tail & H & _).
    destruct pre; discriminate.
  - rewrite orb_true_iff, andb_true_iff, IH. split.
    + intros [[Hp Hm] | (pre & p & tail & -> & Hp & Hm)].
      * exists [], c, s. repeat split; assumption.
      * exists (c :: pre), p, tail. repeat split; assumption.
    + intros (pre & p & tail & H & Hp & Hm). destruct pre as [|c' pre].
      * simpl in H. injection H as -> ->. left. split; assumption.
      * simpl in H. injection H as -> ->. right.
        exists pre, p, tail. repeat split; assumption.
Qed.

(** A trimmed string does not end in white space. *)
Lemma trim_last (s l : jsstring) (c : N) :
  trim s = l ++ [c] -> isWhiteSpace c = false.
Proof.
  unfold trim, trimEnd. intros H.
  apply (f_equal (@rev N)) in H. rewrite rev_involutive, rev_app_distr in H.
  simpl in H. apply (trimStart_fixed_head c (rev l)).
  rewrite <- H. apply trimStart_idem.
Qed.

Lemma blank_last (l : jsstring) (c : N) :
  forallb isWhiteSpace (l ++ [c]) = true -> isWhiteSpace c = true.
Proof.
  rewrite forallb_app. simpl. rewrite andb_true_r, andb_true_iff. tauto.
Qed.

(** On a trimmed string the test holds exactly when the string ends with
    one of [.!?], or with one of them and a double quote. *)
Lemma endsSentence_trim (s : jsstring) :
  endsSentence (trim s) = true <->
  exists pre p, isSentencePunct p = true
                /\ (trim s = pre ++ [p] \/ trim s = pre ++ [p; 34]).
Proof.
  rewrite endsSentence_split. split.
  - intros (pre & p & tail & E & Hp & Hm). exists pre, p. split; [exact Hp|].
    induction tail as [|c tail' _] using rev_ind; [auto|].
    assert (Hc : isWhiteSpace c = false).
    { apply (trim_last s (pre ++ p :: tail') c).
      rewrite E, <- app_assoc. reflexivity. }
    unfold matchesClosing in Hm. apply orb_true_iff in Hm.
    destruct Hm as [Hm | Hm].
    + apply blank_last in Hm. congruence.
    + destruct tail' as [|q tail'']; simpl in Hm.
      * destruct c as [|c]; [discriminate|].
        right. rewrite E. f_equal. f_equal.
        destruct (decide (N.pos c = 34)) as [-> | Hne]; [reflexivity|].
        exfalso. revert Hm. clear -Hne.
        do 6 (destruct c as [c|c|]; try discriminate; try congruence).
      * exfalso.
        assert (q = 34 /\ forallb isWhiteSpace (tail'' ++ [c]) = true)
          as (_ & Hb).
        { destruct q as [|q]; [discriminate|].
          do 6 (destruct q as [q|q|]; try discriminate).
          split; [reflexivity | exact Hm]. }
        apply blank_last in Hb. congruence.
  - intros (pre & p & Hp & [E | E]).
    + exists pre, p, []. auto.
    + exists pre, p, [34]. auto.
Qed.

End SentenceEnd.

Section PasterExtras.
Import FastStreamingPaster.

(** The shape of the formatted text, live or not. *)
Lemma spacing_when_live_aux (toUpperCase : jsstring -> jsstring)
    (s : PasteSession) (now : Z) (text : jsstring) :
  (sessionLive s now = true ->
   exists text',
     addSimpleSmartSpacing toUpperCase s now text = 32 :: text'
     /\ (text' = text \/ text' = lowerFirst text))
  /\ (sessionLive s now = false ->
      addSimpleSmartSpacing toUpperCase s now text = text).
Proof.
  unfold addSimpleSmartSpacing. split; intros ->; [|reflexivity].
  destruct (truthy _ && endsSentence _).
  - exists text. auto.
  - rewrite adjust_spaced.
    destruct (keepsCapital toUpperCase text); eauto.
Qed.

(** X5.  New sentence: while the session is live, if the trimmed previous
    text ends with one of [.!?], or with one of them followed by a double
    quote, the new text is pasted after one space with its capitalisation
    untouched. *)
Theorem new_sentence_keeps_capital (toUpperCase : jsstring -> jsstring)
    (s : PasteSession) (now : Z) (text pre : jsstring) (p : N) :
  sessionLive s now = true ->
  isSentencePunct p = true ->
  trim (lastPastedText s) = pre ++ [p]
  \/ trim (lastPastedText s) = pre ++ [p; 34] ->
  addSimpleSmartSpacing toUpperCase s now text = 32 :: text.
Proof.
  intros Hlive Hp Hend. unfold addSimpleSmartSpacing. rewrite Hlive.
  assert (He : endsSentence (trim (lastPastedText s)) = true).
  { apply endsSentence_trim. eauto. }
  assert (Ht : truthy (Some (lastPastedText s)) = true).
  { destruct (lastPastedText s) as [|c l]; [|reflexivity].
    destruct Hend as [H | H]; vm_compute in H; destruct pre; discriminate. }
  rewrite He, Ht. reflexivity.
Qed.

Lemma new_sentence_keeps_capital_witness :
  sessionLive {| lastPasteTime := t0; lastPastedText := js "He said stop. " |}
    (t0 + 5000) = true
  /\ isSentencePunct 46 = true
  /\ addSimpleSmartSpacing asciiToUpperCase
       {| lastPasteTime := t0; lastPastedText := js "He said stop. " |}
       (t0 + 5000) (js "There you go")
     = 32 :: js "There you go".
Proof.
  split; [reflexivity|]. split; [reflexivity|].
  apply (new_sentence_keeps_capital asciiToUpperCase
           {| lastPasteTime := t0; lastPastedText := js "He said stop. " |}
           (t0 + 5000) (js "There you go") (js "He said stop") 46).
  - reflexivity.
  - reflexivity.
  - left. vm_compute. reflexivity.
Defined.

(** The events of the attempts: the native call, the AppleScript paste, or
    the native call followed by the AppleScript paste. *)
Lemma pasteAttempts_events (env : Env) (smartText : jsstring) :
  fst (pasteAttempts env smartText) = [FastPasteText smartText]
  \/ fst (pasteAttempts env smartText) = [AppleScriptPaste smartText]
  \/ fst (pasteAttempts env smartText)
     = [FastPasteText smartText; AppleScriptPaste smartText].
Proof.
  unfold pasteAttempts, tryNativePaste, tryAppleScriptPaste.
  destruct (typingMonitor env) as [| |[[|]|e]]; simpl; auto.
  destruct (bool_decide _); simpl; auto.
Qed.

(** X6.  Every paste of a non-blank text ends with exactly one clipboard
    action for the formatted text, after one or two paste attempts that
    were handed that same text: a write scheduled 2000 ms later together
    with the session update when the paste succeeded, an immediate write
    with the session untouched when it failed. *)
Theorem pasteFast_outcomes (toUpperCase : jsstring -> jsstring)
    (s : PasteSession) (env : Env) (text : jsstring) :
  blank text = false ->
  let smartText := addSimpleSmartSpacing toUpperCase s (nowSpacing env) text in
  let r := pasteFast toUpperCase s env (Some text) in
  exists attempts,
    (attempts = [FastPasteText smartText]
     \/ attempts = [AppleScriptPaste smartText]
     \/ attempts = [FastPasteText smartText; AppleScriptPaste smartText])
    /\ ((r = ({| lastPasteTime := nowPasted env; lastPastedText := smartText |},
              attempts ++ [ScheduleClipboardWrite 2000 smartText], Return tt))
        \/ (exists error,
              r = (s, attempts ++ [ClipboardWriteText smartText], Throw error))).
Proof.
  intros Hb smartText r. subst r.
  rewrite (pasteFast_unfold toUpperCase s env text Hb). fold smartText.
  exists (fst (pasteAttempts env smartText)).
  split; [apply pasteAttempts_events|].
  destruct (pasteAttempts env smartText) as [events [[]|e]]; simpl.
  - left. reflexivity.
  - right. exists e. reflexivity.
Qed.

Lemma pasteFast_outcomes_witness :
  blank (js "there") = false
  /\ exists attempts,
       (attempts = [FastPasteText (js " there")]
        \/ attempts = [AppleScriptPaste (js " there")]
        \/ attempts = [FastPasteText (js " there");
                       AppleScriptPaste (js " there")])
       /\ ((pasteFast asciiToUpperCase afterWorld (nativeWorks (t0 + 5000))
              (Some (js "there"))
            = ({| lastPasteTime := t0 + 5000; lastPastedText := js " there" |},
               attempts ++ [ScheduleClipboardWrite 2000 (js " there")],
               Return tt))
           \/ (exists error,
                 pasteFast asciiToUpperCase afterWorld (nativeWorks (t0 + 5000))
                   (Some (js "there"))
                 = (afterWorld,
                    attempts ++ [ClipboardWriteText (js " there")],
                    Throw error))).
Proof.
  split; [reflexivity|].
  apply (pasteFast_outcomes asciiToUpperCase afterWorld
           (nativeWorks (t0 + 5000)) (js "there")).
  reflexivity.
Defined.

(** X7.  No focused text field: when the native module is there and
    [fastPasteText] returns [false], the AppleScript paste is not tried;
    [pasteFast] throws NO_TEXT_INPUT after the native call and the
    clipboard backup, and the session is unchanged. *)
Theorem no_text_input_no_fallback (toUpperCase : jsstring -> jsstring)
    (s : PasteSession) (env : Env) (text : jsstring) :
  blank text = false ->
  typingMonitor env = HasFastPasteText (Return false) ->
  let smartText := addSimpleSmartSpacing toUpperCase s (nowSpacing env) text in
  pasteFast toUpperCase s env (Some text)
  = (s, [FastPasteText smartText; ClipboardWriteText smartText],
     Throw NO_TEXT_INPUT).
Proof.
  intros Hb Htm smartText.
  rewrite (pasteFast_unfold toUpperCase s env text Hb). fold smartText.
  unfold pasteAttempts, tryNativePaste. rewrite Htm. reflexivity.
Qed.

Lemma no_text_input_no_fallback_witness :
  blank (js "there") = false
  /\ pasteFast asciiToUpperCase afterWorld
       {| nowSpacing := t0 + 5000;
          typingMonitor := HasFastPasteText (Return false);
          appleScript := Return tt; nowPasted := t0 + 5000 |}
       (Some (js "there"))
     = (afterWorld,
        [FastPasteText (js " there"); ClipboardWriteText (js " there")],
        Throw NO_TEXT_INPUT).
Proof.
  split; [reflexivity|].
  apply (no_text_input_no_fallback asciiToUpperCase afterWorld
           {| nowSpacing := t0 + 5000;
              typingMonitor := HasFastPasteText (Return false);
              appleScript := Return tt; nowPasted := t0 + 5000 |}
           (js "there")); reflexivity.
Defined.

(** X8.  The AppleScript paste is a fallback for a missing or broken native
    module only: it is tried exactly when [require] fails, [fastPasteText]
    is not a function, or [fastPasteText] throws something other than
    NO_TEXT_INPUT. *)
Theorem applescript_only_without_native (env : Env) (smartText : jsstring) :
  AppleScriptPaste smartText ∈ fst (pasteAttempts env smartText)
  <-> typingMonitor env = RequireThrows
      \/ typingMonitor env = NoFastPasteText
      \/ exists error, typingMonitor env = HasFastPasteText (Throw error)
                       /\ message error <> js "NO_TEXT_INPUT".
Proof.
  unfold pasteAttempts, tryNativePaste, tryAppleScriptPaste.
  destruct (typingMonitor env) as [| |[[|]|e]]; simpl.
  - split; [auto | intros _; elem_cases].
  - split; [auto | intros _; elem_cases].
  - split; [elem_cases|].
    intros [H | [H | (e & H & _)]]; discriminate.
  - split; [elem_cases|].
    intros [H | [H | (e & H & _)]]; discriminate.
  - destruct (bool_decide (message e = js "NO_TEXT_INPUT")) eqn:E; simpl.
    + apply bool_decide_eq_true in E. split; [elem_cases|].
      intros [H | [H | (e' & H & Hne)]]; try discriminate.
      injection H as <-. contradiction.
    + apply bool_decide_eq_false in E. split; [|intros _; elem_cases].
      intros _. right. right. eauto.
Qed.

(** X9.  Two dictations in a row: after a paste that succeeded at a time
    [t > 0], the next non-blank text formatted less than 10 000 ms later
    is handed to the paste primitives with exactly one space in front; and
    if that second paste fails, the session still is the one the first
    paste left. *)
Theorem consecutive_pastes_spaced (toUpperCase : jsstring -> jsstring)
    (s0 : PasteSession) (env1 env2 : Env) (text1 text2 : jsstring) :
  blank text1 = false -> blank text2 = false ->
  snd (pasteFast toUpperCase s0 env1 (Some text1)) = Return tt ->
  (0 < nowPasted env1)%Z ->
  (nowSpacing env2 - nowPasted env1 < 10000)%Z ->
  let s1 := fst (fst (pasteFast toUpperCase s0 env1 (Some text1))) in
  let r2 := pasteFast toUpperCase s1 env2 (Some text2) in
  exists text2',
    (text2' = text2 \/ text2' = lowerFirst text2)
    /\ (forall ev, ev ∈ snd (fst r2) ->
          ev = FastPasteText (32 :: text2')
          \/ ev = AppleScriptPaste (32 :: text2')
          \/ ev = ScheduleClipboardWrite 2000 (32 :: text2')
          \/ ev = ClipboardWriteText (32 :: text2'))
    /\ (forall error, snd r2 = Throw error -> fst (fst r2) = s1).
Proof.
  intros Hb1 Hb2 Hok Hpos Hwin s1 r2.
  assert (Hs1 : lastPasteTime s1 = nowPasted env1).
  { subst s1. revert Hok.
    destruct (pasteFast_outcomes toUpperCase s0 env1 text1 Hb1)
      as (att & _ & [-> | (e & ->)]); simpl; [reflexivity | discriminate]. }
  assert (Hlive : sessionLive s1 (nowSpacing env2) = true).
  { unfold sessionLive, SPACE_TIMEOUT. rewrite Hs1.
    apply andb_true_iff. split; apply Z.ltb_lt; lia. }
  destruct (proj1 (spacing_when_live_aux toUpperCase s1 (nowSpacing env2) text2)
              Hlive) as (text2' & Hfmt & Hshape).
  exists text2'. split; [exact Hshape|].
  destruct (pasteFast_outcomes toUpperCase s1 env2 text2 Hb2)
    as (att & Hatt & Hr).
  rewrite Hfmt in Hatt, Hr. fold r2 in Hr. split.
  - intros ev Hev.
    destruct Hr as [Hr | (e & Hr)]; rewrite Hr in Hev; simpl in Hev;
      apply elem_of_app in Hev; destruct Hev as [Hev | Hev].
    + destruct Hatt as [-> | [-> | ->]]; revert Hev; elem_cases.
    + revert Hev; elem_cases.
    + destruct Hatt as [-> | [-> | ->]]; revert Hev; elem_cases.
    + revert Hev; elem_cases.
  - intros error Herr.
    destruct Hr as [Hr | (e & Hr)]; rewrite Hr in Herr |- *; simpl in *;
      [discriminate | reflexivity].
Qed.

End PasterExtras.

Section PasterSequence.
Import FastStreamingPaster.

Lemma consecutive_pastes_spaced_witness :
  blank (js "World") = false /\ blank (js "There") = false
  /\ snd (pasteFast asciiToUpperCase initialSession (nativeWorks t0)
            (Some (js "World"))) = Return tt
  /\ let r2 := pasteFast asciiToUpperCase afterWorld (bothFail (t0 + 5000))
                 (Some (js "There")) in
     exists text2',
       (text2' = js "There" \/ text2' = lowerFirst (js "There"))
       /\ (forall ev, ev ∈ snd (fst r2) ->
             ev = FastPasteText (32 :: text2')
             \/ ev = AppleScriptPaste (32 :: text2')
             \/ ev = ScheduleClipboardWrite 2000 (32 :: text2')
             \/ ev = ClipboardWriteText (32 :: text2'))
       /\ (forall error, snd r2 = Throw error -> fst (fst r2) = afterWorld).
Proof.
  split; [reflexivity|]. split; [reflexivity|]. split; [reflexivity|].
  apply (consecutive_pastes_spaced asciiToUpperCase initialSession
           (nativeWorks t0) (bothFail (t0 + 5000)) (js "World") (js "There"));
    reflexivity.
Defined.

End PasterSequence.

Section AppleScriptCallbacks.
Import FastStreamingPaster.

(** A settled promise stays as it settled. *)
Lemma runCallback_settled (p : Promise) (cb : Callback) (c : Completion unit) :
  settled p = Some c -> settled (runCallback p cb) = Some c.
Proof.
  intros H. destruct cb as [code| |code|]; simpl; unfold reject, settle; simpl;
    rewrite ?H; simpl;
    repeat match goal with
           | |- context [bool_decide ?P] => destruct (bool_decide P)
           | |- context [pasteSpawned p] => destruct (pasteSpawned p)
           end; simpl; rewrite ?H; simpl; rewrite ?H; reflexivity.
Qed.

Lemma foldl_settled (l : list Callback) (p : Promise) (c : Completion unit) :
  settled p = Some c -> settled (foldl runCallback p l) = Some c.
Proof.
  revert p. induction l as [|cb l IH]; intros p H; [exact H|].
  simpl. apply IH, runCallback_settled, H.
Qed.

Lemma runCallback_kills (p : Promise) (cb : Callback) (k : Kill) :
  k ∈ kills p -> k ∈ kills (runCallback p cb).
Proof.
  intros H. destruct cb as [code| |code|]; simpl; unfold reject, settle; simpl;
    repeat match goal with
           | |- context [bool_decide ?P] => destruct (bool_decide P)
           | |- context [pasteSpawned p] => destruct (pasteSpawned p)
           | |- context [settled p] => destruct (settled p)
           end; simpl; rewrite ?elem_of_app; auto.
Qed.

Lemma foldl_kills (l : list Callback) (p : Promise) (k : Kill) :
  k ∈ kills p -> k ∈ kills (foldl runCallback p l).
Proof.
  revert p. induction l as [|cb l IH]; intros p H; [exact H|].
  simpl. apply IH, runCallback_kills, H.
Qed.

(** How one callback moves the promise. *)
Lemma runCallback_step (p : Promise) (cb : Callback) :
  (pasteSpawned (runCallback p cb) = true ->
   pasteSpawned p = true \/ cb = CopyClose (Some 0%Z))
  /\ (settled (runCallback p cb) = Some (Return tt) ->
      settled p = Some (Return tt)
      \/ (pasteSpawned p = true /\ cb = PasteClose (Some 0%Z)))
  /\ (settled (runCallback p cb) = Some (Throw pasteTimeout) ->
      settled p = Some (Throw pasteTimeout) \/ cb = PasteTimer).
Proof.
  destruct p as [st sp ks]. destruct cb as [code| |code|]; simpl;
    unfold reject, settle; simpl;
    repeat match goal with
           | |- context [bool_decide (?c = ?d)] =>
             let E := fresh "E" in
             destruct (bool_decide (c = d)) eqn:E;
             [apply bool_decide_eq_true in E; subst|]
           | |- context [if sp then _ else _] => destruct sp
           | |- context [match st with _ => _ end] => destruct st
           end; simpl; repeat split; auto; try discriminate;
    intros H; vm_compute in H;
    repeat match goal with c : option Z |- _ => destruct c end;
    discriminate H.
Qed.

Lemma split_snoc {A} (x : A) (l : list A) (y : A) :
  (exists a b, l = a ++ x :: b) -> exists a b, l ++ [y] = a ++ x :: b.
Proof.
  intros (a & b & ->). exists a, (b ++ [y]). rewrite <- app_assoc. reflexivity.
Qed.

Lemma split2_snoc {A} (x z : A) (l : list A) (y : A) :
  (exists a b c, l = a ++ x :: b ++ z :: c) ->
  exists a b c, l ++ [y] = a ++ x :: b ++ z :: c.
Proof.
  intros (a & b & c & ->). exists a, b, (c ++ [y]).
  rewrite <- !app_assoc. simpl. rewrite <- app_assoc. reflexivity.
Qed.

(** What a run of callbacks can have done. *)
Lemma runCallbacks_history (l : list Callback) :
  let p := runCallbacks l in
  (pasteSpawned p = true -> exists a b, l = a ++ CopyClose (Some 0%Z) :: b)
  /\ (settled p = Some (Return tt) ->
      exists a b c,
        l = a ++ CopyClose (Some 0%Z) :: b ++ PasteClose (Some 0%Z) :: c)
  /\ (PasteTimer ∉ l -> settled p <> Some (Throw pasteTimeout)).
Proof.
  unfold runCallbacks. induction l as [|cb l IH] using rev_ind.
  - simpl. repeat split; try discriminate.
  - rewrite foldl_snoc. cbv zeta in IH |- *.
    destruct IH as (Hsp & Hok & Hnt).
    destruct (runCallback_step (foldl runCallback pending l) cb)
      as (Ssp & Sok & Snt).
    split; [|split].
    + intros H. destruct (Ssp H) as [H' | ->].
      * apply split_snoc, Hsp, H'.
      * exists l, []. reflexivity.
    + intros H. destruct (Sok H) as [H' | [H' ->]].
      * apply split2_snoc, Hok, H'.
      * destruct (Hsp H') as (a & b & ->). exists a, b, [].
        rewrite <- app_assoc. reflexivity.
    + intros Hin H. destruct (Snt H) as [H' | ->].
      * revert H'. apply Hnt. intros Hl. apply Hin, elem_of_app. auto.
      * apply Hin, elem_of_app. right. apply list_elem_of_here.
Qed.

(** X10.  The 200 ms timer of [tryAppleScriptPaste] is never cleared, and it
    expires before the 500 ms timer that is set later.  So once it has run
    the promise is settled and pbcopy was sent a kill; the promise resolves
    only if pbcopy and then osascript both closed with code 0 before that
    timer ran; and the promise is never rejected with Paste timeout. *)
Theorem applescript_one_budget (pre post : list Callback) :
  PasteTimer ∉ pre ->
  let p := runCallbacks (pre ++ CopyTimer :: post) in
  (exists c, settled p = Some c)
  /\ KillCopy ∈ kills p
  /\ (settled p = Some (Return tt) ->
      exists a b c,
        pre = a ++ CopyClose (Some 0%Z) :: b ++ PasteClose (Some 0%Z) :: c)
  /\ settled p <> Some (Throw pasteTimeout).
Proof.
  intros Hpre p. subst p. unfold runCallbacks.
  rewrite foldl_app.
  pose proof (runCallbacks_history pre) as (_ & Hok & Hnt).
  unfold runCallbacks in Hok, Hnt. cbv zeta in Hok, Hnt.
  set (p0 := foldl runCallback pending pre) in *.
  change (foldl runCallback p0 (CopyTimer :: post))
    with (foldl runCallback (runCallback p0 CopyTimer) post).
  set (p1 := runCallback p0 CopyTimer).
  assert (Hk : KillCopy ∈ kills p1).
  { subst p1. simpl. unfold reject, settle. simpl.
    destruct (settled p0); simpl; apply elem_of_app; right;
      apply list_elem_of_here. }
  assert (Hs : settled p1 = match settled p0 with
                            | Some c => Some c
                            | None => Some (Throw {| message := js "Copy timeout" |})
                            end).
  { subst p1. simpl. unfold reject, settle. simpl.
    destruct (settled p0); reflexivity. }
  destruct (settled p0) as [c0|] eqn:E0.
  - rewrite (foldl_settled post p1 c0 Hs).
    split; [eauto|]. split; [apply foldl_kills, Hk|].
    split.
    + intros [= ->]. apply Hok. reflexivity.
    + intros [= ->]. apply (Hnt Hpre). reflexivity.
  - rewrite (foldl_settled post p1 _ Hs).
    split; [eauto|]. split; [apply foldl_kills, Hk|].
    split; [discriminate|]. intros H. vm_compute in H. discriminate H.
Qed.

Lemma applescript_one_budget_witness :
  (PasteTimer ∉ [CopyClose (Some 0%Z)])
  /\ (let p := runCallbacks ([CopyClose (Some 0%Z)]
                             ++ CopyTimer :: [PasteClose (Some 0%Z); PasteTimer]) in
      settled p = Some (Throw {| message := js "Copy timeout" |})
      /\ KillCopy ∈ kills p).
Proof.
  assert (H : PasteTimer ∉ [CopyClose (Some 0%Z)]).
  { intros Hin. revert Hin. elem_cases. }
  split; [exact H|].
  destruct (applescript_one_budget [CopyClose (Some 0%Z)]
              [PasteClose (Some 0%Z); PasteTimer] H) as (_ & Hk & _ & _).
  split; [vm_compute; reflexivity | exact Hk].
Defined.

End AppleScriptCallbacks.

(** * Further properties of the resident model *)

Section ResidentModelExtras.
Import WhisperAddon LocalWhisperTranscriber.

Variable this : Transcriber.

(** While a handle is held, its model id is known. *)
Lemma preloadModel_true (modelId : jsstring) (env : ModelFiles)
    (st : ModuleState * Native) :
  snd (preloadModel this modelId env st) = true ->
  loadedModelId (fst (fst (preloadModel this modelId env st))) = Some modelId
  /\ is_Some (whisperHandle (fst (fst (preloadModel this modelId env st)))).
Proof.
  destruct st as [m n]. unfold preloadModel.
  destruct (whisperAddon m); [|discriminate]. cbn [negb].
  destruct (isModelDownloaded env); [|discriminate]. cbn [negb].
  destruct (bool_decide (is_Some (whisperHandle m))) eqn:E1;
    destruct (bool_decide (loadedModelId m = Some modelId)) eqn:E2; cbn [andb].
  - apply bool_decide_eq_true in E1, E2. simpl. auto.
  - destruct (whisperHandle m);
      destruct (init_model _ _ _) as [n2 [h|e]]; simpl;
      try discriminate; eauto.
  - destruct (whisperHandle m);
      destruct (init_model _ _ _) as [n2 [h|e]]; simpl;
      try discriminate; eauto.
  - destruct (whisperHandle m);
      destruct (init_model _ _ _) as [n2 [h|e]]; simpl;
      try discriminate; eauto.
Qed.

Lemma init_model_some (path : jsstring) (g : option bool) (c : N) (n : Native) :
  exists n', init_model {| model := Some path; gpu := g |} (Some c) n
             = (n', Return (External (next n))).
Proof. unfold init_model. simpl. eauto. Qed.

Lemma init_model_none (path : jsstring) (g : option bool) (n : Native) :
  exists n' e, init_model {| model := Some path; gpu := g |} None n
               = (n', Throw e).
Proof. unfold init_model. simpl. eauto. Qed.

(** X11.  In any state the module can reach, [preloadModel] returns [true]
    only with the asked model resident: the handle it holds is Loaded and
    [loadedModelId] is the asked id.  When the addon is there and the file
    is downloaded, it returns [false] only because the load failed, and
    then nothing is resident: no handle is held, no handle of the heap is
    Loaded and every context that was loaded has been released. *)
Theorem preloadModel_result (addon : bool) (cs : list Call)
    (modelId : jsstring) (env : ModelFiles) :
  let st := run this cs (initialModule addon, emptyNative) in
  let r := preloadModel this modelId env st in
  (snd r = true ->
   loadedModelId (fst (fst r)) = Some modelId
   /\ exists p h, whisperHandle (fst (fst r)) = Some (External p)
                  /\ handles (snd (fst r)) !! p = Some h /\ loaded h = true)
  /\ (snd r = false -> whisperAddon (fst st) = true ->
      isModelDownloaded env = true ->
      loadResult env = None
      /\ whisperHandle (fst (fst r)) = None
      /\ loadedModelId (fst (fst r)) = None
      /\ resident (events (snd (fst r))) = 0%Z
      /\ (forall p h, handles (snd (fst r)) !! p = Some h -> loaded h = false)).
Proof.
  intros st r.
  assert (Hst : consistent st) by apply consistent_run, consistent_initial.
  assert (Hr : consistent (fst r)) by apply consistent_preloadModel, Hst.
  split.
  - intros Ht. destruct (preloadModel_true modelId env st Ht) as (Hl & v & Hv).
    fold r in Hl, Hv. split; [exact Hl|].
    destruct (current_is_loaded _ Hr v Hv) as (_ & p & h & -> & Hp & Hh).
    eauto.
  - intros Hf Hon Hdl.
    assert (Hnone : loadResult env = None
                    /\ whisperHandle (fst (fst r)) = None
                    /\ loadedModelId (fst (fst r)) = None).
    { subst r. revert Hf. destruct st as [m n]. simpl in Hon.
      unfold preloadModel. rewrite Hon, Hdl. cbn [negb].
      destruct (bool_decide _ && bool_decide _); [discriminate|].
      destruct (loadResult env) as [c|].
      - destruct (whisperHandle m) as [v|].
        + destruct (init_model_some (getModelPath this modelId) (Some true) c
                      (fst (free_model v n))) as (n' & ->). discriminate.
        + destruct (init_model_some (getModelPath this modelId) (Some true) c n)
            as (n' & ->). discriminate.
      - destruct (whisperHandle m) as [v|].
        + destruct (init_model_none (getModelPath this modelId) (Some true)
                      (fst (free_model v n))) as (n' & e & ->). simpl. auto.
        + destruct (init_model_none (getModelPath this modelId) (Some true) n)
            as (n' & e & ->). simpl. auto. }
    destruct Hnone as (Hlr & Hwh & Hid).
    split; [exact Hlr|]. split; [exact Hwh|]. split; [exact Hid|].
    split.
    + rewrite (resident_current _ Hr), Hwh. reflexivity.
    + intros p h Hp. destruct (loaded h) eqn:Hl; [|reflexivity].
      pose proof (loaded_is_current _ Hr p h Hp Hl) as H.
      rewrite Hwh in H. discriminate.
Qed.

(** The state while only model [m] has been asked for. *)
Lemma run_same_model (m : jsstring) (cs : list Call)
    (st : ModuleState * Native) :
  Forall (requestsModel m) cs ->
  whisperAddon (fst st) = true ->
  (whisperHandle (fst st) = None /\ events (snd st) = [])
  \/ (is_Some (whisperHandle (fst st)) /\ loadedModelId (fst st) = Some m
      /\ exists c, events (snd st)
                   = [whisper_init_from_file (getModelPath this m) true (Some c)]) ->
  let st' := run this cs st in
  (whisperHandle (fst st') = None /\ events (snd st') = [])
  \/ (is_Some (whisperHandle (fst st')) /\ loadedModelId (fst st') = Some m
      /\ exists c, events (snd st')
                   = [whisper_init_from_file (getModelPath this m) true (Some c)]).
Proof.
  intros Hcs. revert st. induction Hcs as [|c cs Hc _ IH]; intros st Hon Hst.
  - exact Hst.
  - simpl. apply IH.
    + destruct st as [mo n]. simpl in Hon. destruct c as [m' env| |m' env|m' env w];
        simpl in *; try exact Hon; try contradiction.
      * destruct Hc as (-> & Hdl & (c0 & Hl)). unfold preloadModel.
        rewrite Hon, Hdl, Hl. cbn [negb].
        destruct (bool_decide _ && bool_decide _); [exact Hon|].
        destruct (whisperHandle mo); simpl; exact Hon.
      * destruct Hc as (-> & Hdl & (c0 & Hl)).
        unfold transcribeFromBuffer_model, autoPreload.
        rewrite Hon, Hdl, Hl. cbn [negb].
        destruct w; [|exact Hon]. cbn [negb].
        destruct (bool_decide (is_Some (whisperHandle mo))); simpl; exact Hon.
    + destruct st as [mo n]. simpl in Hon, Hst.
      destruct c as [m' env| |m' env|m' env w]; simpl in *;
        try exact Hst; try contradiction.
      * destruct Hc as (-> & Hdl & (c0 & Hl)). unfold preloadModel.
        rewrite Hon, Hdl, Hl. cbn [negb].
        destruct Hst as [(Hn & He) | (Hs & Hid & c1 & He)].
        -- rewrite Hn.
           rewrite (bool_decide_eq_false_2 (is_Some None))
             by (intros [? ?]; discriminate).
           simpl. right. rewrite He. eauto.
        -- rewrite (bool_decide_eq_true_2 _ Hs), (bool_decide_eq_true_2 _ Hid).
           simpl. right. eauto.
      * destruct Hc as (-> & Hdl & (c0 & Hl)).
        unfold transcribeFromBuffer_model, autoPreload.
        rewrite Hon, Hdl, Hl. cbn [negb].
        destruct w; [|exact Hst]. cbn [negb].
        destruct Hst as [(Hn & He) | (Hs & Hid & c1 & He)].
        -- rewrite Hn.
           rewrite (bool_decide_eq_false_2 (is_Some None))
             by (intros [? ?]; discriminate).
           simpl. right. rewrite He. eauto.
        -- rewrite (bool_decide_eq_true_2 _ Hs). simpl. right. eauto.
Qed.

(** X12.  The model stays cached: however often [preloadModel] and
    [transcribeFromBuffer] are called for one and the same model whose file
    is present and loads, whisper.cpp is asked to load that file at most
    once and no context is ever released. *)
Theorem model_loaded_once (m : jsstring) (cs : list Call) :
  Forall (requestsModel m) cs ->
  let log := events (snd (run this cs (initialModule true, emptyNative))) in
  log = []
  \/ exists c, log = [whisper_init_from_file (getModelPath this m) true (Some c)].
Proof.
  intros Hcs log.
  destruct (run_same_model m cs (initialModule true, emptyNative) Hcs eq_refl)
    as [(_ & H) | (_ & _ & c & H)].
  - left. auto.
  - left. exact H.
  - right. exists c. exact H.
Qed.

End ResidentModelExtras.

Section ResidentModelExtrasWitness.
Import WhisperAddon LocalWhisperTranscriber.

Lemma preloadModel_result_witness :
  let st := run sampleTranscriber tinyPreloaded (initialModule true, emptyNative) in
  let r := preloadModel sampleTranscriber (js "base.en")
             {| isModelDownloaded := true; loadResult := None |} st in
  snd r = false
  /\ whisperHandle (fst (fst r)) = None
  /\ resident (events (snd (fst r))) = 0%Z.
Proof.
  destruct (preloadModel_result sampleTranscriber true tinyPreloaded
              (js "base.en") {| isModelDownloaded := true; loadResult := None |})
    as (_ & H).
  assert (Hf : snd (preloadModel sampleTranscriber (js "base.en")
                      {| isModelDownloaded := true; loadResult := None |}
                      (run sampleTranscriber tinyPreloaded
                         (initialModule true, emptyNative))) = false)
    by reflexivity.
  destruct (H Hf eq_refl eq_refl) as (_ & Hw & _ & Hres & _).
  split; [exact Hf|]. split; [exact Hw | exact Hres].
Defined.


Lemma model_loaded_once_witness :
  Forall (requestsModel (js "tiny.en"))
    [TranscribeFromBuffer (js "tiny.en") (present 4096) true;
     PreloadModel (js "tiny.en") (present 8192);
     TranscribeFromBuffer (js "tiny.en") (present 12288) true]
  /\ events (snd (run sampleTranscriber
                    [TranscribeFromBuffer (js "tiny.en") (present 4096) true;
                     PreloadModel (js "tiny.en") (present 8192);
                     TranscribeFromBuffer (js "tiny.en") (present 12288) true]
                    (initialModule true, emptyNative)))
     = [whisper_init_from_file (js "/models/ggml-tiny.en.bin") true (Some 4096)].
Proof.
  assert (H : Forall (requestsModel (js "tiny.en"))
                [TranscribeFromBuffer (js "tiny.en") (present 4096) true;
                 PreloadModel (js "tiny.en") (present 8192);
                 TranscribeFromBuffer (js "tiny.en") (present 12288) true]).
  { repeat constructor; eauto. }
  split; [exact H|].
  destruct (model_loaded_once sampleTranscriber (js "tiny.en") _ H)
    as [E | (c & E)]; [discriminate E|].
  vm_compute. reflexivity.
Defined.

(** X13.  [freeModel] empties the cache: in any state the module can
    reach, after it no handle is held, no handle of the heap is Loaded and
    no context is resident; a second [freeModel] changes nothing. *)
Theorem freeModel_unloads (this : Transcriber) (addon : bool) (cs : list Call) :
  let st := freeModel (run this cs (initialModule addon, emptyNative)) in
  whisperHandle (fst st) = None
  /\ isModelLoaded (fst st) = false
  /\ (forall p h, handles (snd st) !! p = Some h -> loaded h = false)
  /\ resident (events (snd st)) = 0%Z
  /\ freeModel st = st.
Proof.
  intros st.
  assert (Hst0 : consistent (run this cs (initialModule addon, emptyNative)))
    by apply consistent_run, consistent_initial.
  assert (Hst : consistent st) by apply consistent_freeModel, Hst0.
  assert (Hw : whisperHandle (fst st) = None).
  { subst st. destruct (run this cs _) as [m n]. unfold freeModel.
    destruct (whisperHandle m) as [v|] eqn:Hv; [|exact Hv].
    destruct (current_is_loaded _ Hst0 v Hv) as (Hon & _). simpl in Hon.
    rewrite Hon. reflexivity. }
  split; [exact Hw|]. split.
  { unfold isModelLoaded. rewrite Hw. reflexivity. }
  split.
  { intros p h Hp. destruct (loaded h) eqn:Hl; [|reflexivity].
    pose proof (loaded_is_current _ Hst p h Hp Hl) as H.
    rewrite Hw in H. discriminate. }
  split.
  { rewrite (resident_current _ Hst), Hw. reflexivity. }
  destruct st as [m n]. simpl in Hw. unfold freeModel. rewrite Hw. reflexivity.
Qed.

End ResidentModelExtrasWitness.

(** * The WAV container and the samples handed to the addon *)

Section WavContainer.
Import LocalWhisperTranscriber.

Lemma byteOfZ_value (z : Z) : Z.of_N (Byte.to_N (byteOfZ z)) = (z mod 256)%Z.
Proof.
  unfold byteOfZ.
  assert (Hb : (0 <= z mod 256 < 256)%Z) by (apply Z.mod_pos_bound; lia).
  destruct (Byte.of_N (Z.to_N (z mod 256))) as [b|] eqn:E; simpl.
  - apply Byte.to_of_N in E. rewrite E. apply Z2N.id. lia.
  - apply Byte.of_N_None_iff in E. exfalso.
    apply N2Z.inj_lt in E. rewrite Z2N.id in E by lia. simpl in E. lia.
Qed.

(** Reading back what [leBytes] wrote. *)
Lemma read_leBytes_2 (v : Z) :
  (0 <= v < 65536)%Z ->
  foldr (fun b acc => (Z.of_N (Byte.to_N b) + 256 * acc)%Z) 0%Z (leBytes 2 v) = v.
Proof.
  intros Hv. unfold leBytes. cbn [seq map foldr]. rewrite !byteOfZ_value.
  change (256 ^ Z.of_nat 0)%Z with 1%Z. change (256 ^ Z.of_nat 1)%Z with 256%Z.
  Z.to_euclidean_division_equations. lia.
Qed.

Lemma read_leBytes_4 (v : Z) :
  (0 <= v < 4294967296)%Z ->
  foldr (fun b acc => (Z.of_N (Byte.to_N b) + 256 * acc)%Z) 0%Z (leBytes 4 v) = v.
Proof.
  intros Hv. unfold leBytes. cbn [seq map foldr]. rewrite !byteOfZ_value.
  change (256 ^ Z.of_nat 0)%Z with 1%Z. change (256 ^ Z.of_nat 1)%Z with 256%Z.
  change (256 ^ Z.of_nat 2)%Z with 65536%Z.
  change (256 ^ Z.of_nat 3)%Z with 16777216%Z.
  Z.to_euclidean_division_equations. lia.
Qed.

Lemma length_leBytes (width : nat) (v : Z) : length (leBytes width v) = width.
Proof. unfold leBytes. rewrite length_map, length_seq. reflexivity. Qed.

(** A write that stays inside the first part of a buffer. *)
Lemma Buffer_copy_app (source a b : list Byte.byte) (offset : nat) :
  (offset + length source <= length a)%nat ->
  Buffer_copy source (a ++ b) offset = Buffer_copy source a offset ++ b.
Proof.
  intros H. unfold Buffer_copy.
  rewrite (take_app_le a b offset) by lia.
  rewrite (take_ge source (length (a ++ b) - offset))
    by (rewrite length_app; lia).
  rewrite (take_ge source (length a - offset)) by lia.
  rewrite (drop_app_le a b) by lia.
  rewrite <- !app_assoc. reflexivity.
Qed.

Lemma length_Buffer_copy (source a : list Byte.byte) (offset : nat) :
  (offset + length source <= length a)%nat ->
  length (Buffer_copy source a offset) = length a.
Proof.
  intros H. unfold Buffer_copy.
  rewrite !length_app, length_take, length_take, length_drop. lia.
Qed.

(** A write that fills the rest of a buffer. *)
Lemma Buffer_copy_tail (source a b : list Byte.byte) :
  length b = length source ->
  Buffer_copy source (a ++ b) (length a) = a ++ source.
Proof.
  intros H. unfold Buffer_copy.
  rewrite take_app_length.
  rewrite (take_ge source) by (rewrite length_app; lia).
  rewrite (drop_ge (a ++ b)) by (rewrite length_app; lia).
  rewrite app_nil_r. reflexivity.
Qed.

Lemma writeUIntLE_app (width : nat) (a b : list Byte.byte) (value : Z)
    (offset : nat) :
  (0 <= value < 256 ^ Z.of_nat width)%Z ->
  (offset + width <= length a)%nat ->
  writeUIntLE width (a ++ b) value offset
  = Return (Buffer_copy (leBytes width value) a offset ++ b).
Proof.
  intros Hv Ho. unfold writeUIntLE.
  rewrite (proj2 (Z.leb_le 0 value)) by lia.
  rewrite (proj2 (Z.ltb_lt value _)) by lia.
  rewrite (proj2 (Nat.leb_le _ _)) by (rewrite length_app; lia).
  simpl. rewrite Buffer_copy_app by (rewrite length_leBytes; lia).
  reflexivity.
Qed.

(** Carry out a write into an explicit list. *)
Ltac copy_now :=
  match goal with
  | |- context [Buffer_copy ?s ?a ?o ++ ?b] =>
    let r := eval vm_compute in (Buffer_copy s a o) in
    change (Buffer_copy s a o ++ b) with (r ++ b)
  end.

(** The 44 bytes that [pcmToWav] writes in front of [n] bytes of 16 kHz,
    mono, 16-bit PCM. *)
Lemma pcmToWav_header (pcm : list Byte.byte) :
  (Z.of_nat (length pcm) + 36 < 4294967296)%Z ->
  exists s0 s1 s2 s3 d0 d1 d2 d3,
    leBytes 4 (Z.of_nat (length pcm) + 36) = [s0; s1; s2; s3]
    /\ leBytes 4 (Z.of_nat (length pcm)) = [d0; d1; d2; d3]
    /\ pcmToWav pcm 16000 1 16
       = Return (list_byte_of_string "RIFF" ++ [s0; s1; s2; s3]
                 ++ list_byte_of_string "WAVEfmt "
                 ++ leBytes 4 16 ++ leBytes 2 1 ++ leBytes 2 1
                 ++ leBytes 4 16000 ++ leBytes 4 32000
                 ++ leBytes 2 2 ++ leBytes 2 16
                 ++ list_byte_of_string "data" ++ [d0; d1; d2; d3] ++ pcm).
Proof.
  intros Hlen.
  pose proof (length_leBytes 4 (Z.of_nat (length pcm) + 36)) as Ls.
  pose proof (length_leBytes 4 (Z.of_nat (length pcm))) as Ld.
  destruct (leBytes 4 (Z.of_nat (length pcm) + 36))
    as [|s0 [|s1 [|s2 [|s3 [|]]]]] eqn:Es; try discriminate Ls.
  destruct (leBytes 4 (Z.of_nat (length pcm)))
    as [|d0 [|d1 [|d2 [|d3 [|]]]]] eqn:Ed; try discriminate Ld.
  exists s0, s1, s2, s3, d0, d1, d2, d3.
  split; [reflexivity|]. split; [reflexivity|].
  unfold pcmToWav, Buffer_write, Buffer_alloc.
  rewrite (replicate_add 44 (length pcm)).
  replace (44 + Z.of_nat (length pcm) - 8)%Z
    with (Z.of_nat (length pcm) + 36)%Z by lia.
  change (16000 * 1 * (16 / 8))%Z with 32000%Z.
  change (1 * (16 / 8))%Z with 2%Z.
  let r := eval vm_compute in (replicate 44 Byte.x00) in
  change (replicate 44 Byte.x00) with r.
  repeat first
    [ rewrite Buffer_copy_app by (vm_compute; lia); copy_now
    | rewrite (writeUIntLE_app 4)
        by first [ change (256 ^ Z.of_nat 4)%Z with 4294967296%Z; lia
                 | simpl; lia ];
      cbn [andThen]; rewrite ?Es, ?Ed; copy_now
    | rewrite (writeUIntLE_app 2)
        by first [ change (256 ^ Z.of_nat 2)%Z with 65536%Z; lia
                 | simpl; lia ];
      cbn [andThen]; copy_now ].
  match goal with
  | |- Return (Buffer_copy pcm (?a ++ ?b) 44) = _ =>
    let Ht := fresh "Ht" in
    pose proof (Buffer_copy_tail pcm a b (length_replicate _ _)) as Ht;
    cbn [length] in Ht; rewrite Ht
  end.
  reflexivity.
Qed.

Lemma processedBuffer_length (audioBuffer : list Byte.byte) :
  length (processedBuffer audioBuffer) = max (length audioBuffer) minBytes.
Proof.
  unfold processedBuffer.
  destruct (length audioBuffer <? minBytes)%nat eqn:E.
  - apply Nat.ltb_lt in E. rewrite Buffer_copy_alloc by lia.
    rewrite length_app, length_replicate. lia.
  - apply Nat.ltb_ge in E. lia.
Qed.

(** X14.  The WAV file written for the slow path: for a buffer below 4 GiB,
    [pcmToWav] returns 44 header bytes followed by the processed PCM bytes
    unchanged.  The header holds the tags RIFF, WAVE, fmt and data, and its
    little-endian fields read back as file size minus 8, format chunk size
    16, PCM format 1, 1 channel, 16000 Hz, 32000 bytes per second, block
    align 2, 16 bits, and the length of the PCM data. *)
Theorem wav_container (audioBuffer : list Byte.byte) :
  (Z.of_nat (length audioBuffer) + 36 < 4294967296)%Z ->
  let pcm := processedBuffer audioBuffer in
  exists wav,
    wavBuffer audioBuffer = Return wav
    /\ length wav = (44 + length pcm)%nat
    /\ drop 44 wav = pcm
    /\ take 4 wav = list_byte_of_string "RIFF"
    /\ take 8 (drop 8 wav) = list_byte_of_string "WAVEfmt "
    /\ take 4 (drop 36 wav) = list_byte_of_string "data"
    /\ readUIntLE 4 wav 4 = (Z.of_nat (length pcm) + 36)%Z
    /\ readUIntLE 4 wav 16 = 16%Z
    /\ readUIntLE 2 wav 20 = 1%Z
    /\ readUIntLE 2 wav 22 = 1%Z
    /\ readUIntLE 4 wav 24 = 16000%Z
    /\ readUIntLE 4 wav 28 = 32000%Z
    /\ readUIntLE 2 wav 32 = 2%Z
    /\ readUIntLE 2 wav 34 = 16%Z
    /\ readUIntLE 4 wav 40 = Z.of_nat (length pcm).
Proof.
  intros Hlen pcm.
  assert (Hpcm : (Z.of_nat (length pcm) + 36 < 4294967296)%Z).
  { subst pcm. rewrite processedBuffer_length. pose proof minBytes_eq. lia. }
  destruct (pcmToWav_header pcm Hpcm)
    as (s0 & s1 & s2 & s3 & d0 & d1 & d2 & d3 & Es & Ed & E).
  unfold wavBuffer. fold pcm. rewrite E. eexists. split; [reflexivity|].
  split; [reflexivity|]. split; [reflexivity|]. split; [reflexivity|].
  split; [reflexivity|]. split; [reflexivity|].
  split.
  { unfold readUIntLE. simpl (take _ _).
    rewrite <- Es. apply read_leBytes_4. lia. }
  do 7 (split; [reflexivity|]).
  unfold readUIntLE. simpl (take _ _). rewrite take_0.
  rewrite <- Ed. apply read_leBytes_4. lia.
Qed.

Lemma wav_container_witness :
  (Z.of_nat (length [Byte.x01; Byte.x02]) + 36 < 4294967296)%Z
  /\ exists wav,
       wavBuffer [Byte.x01; Byte.x02] = Return wav
       /\ length wav = (44 + length (processedBuffer [Byte.x01; Byte.x02]))%nat
       /\ drop 44 wav = processedBuffer [Byte.x01; Byte.x02].
Proof.
  assert (H : (Z.of_nat (length [Byte.x01; Byte.x02]) + 36 < 4294967296)%Z)
    by (simpl; lia).
  split; [exact H|].
  destruct (wav_container [Byte.x01; Byte.x02] H) as (wav & E & Hl & Hd & _).
  exists wav. auto.
Defined.

Lemma int16LE_range (lo hi : Byte.byte) :
  (-32768 <= int16LE lo hi <= 32767)%Z.
Proof.
  unfold int16LE.
  pose proof (Byte.to_N_bounded lo). pose proof (Byte.to_N_bounded hi).
  destruct (_ <? 32768)%Z eqn:E;
    [apply Z.ltb_lt in E | apply Z.ltb_ge in E]; lia.
Qed.

Lemma int16Array_length_ge (k : nat) (b : list Byte.byte) :
  (2 * k <= length b)%nat -> (k <= length (int16Array b))%nat.
Proof.
  revert b. induction k as [|k IH]; intros b H; [lia|].
  destruct b as [|lo [|hi b]]; simpl in H; try lia.
  simpl. apply le_n_S, IH. lia.
Qed.

Lemma int16Array_Forall (P : Z -> Prop) (b : list Byte.byte) :
  (forall lo hi, P (int16LE lo hi)) -> Forall P (int16Array b).
Proof.
  intros HP.
  assert (H : forall n (l : list Byte.byte),
             (length l <= n)%nat -> Forall P (int16Array l)).
  { induction n as [|n IH]; intros l Hl.
    - destruct l; [constructor | simpl in Hl; lia].
    - destruct l as [|lo [|hi l]]; try constructor; [apply HP|].
      apply IH. simpl in Hl. lia. }
  apply (H (length b)). lia.
Qed.

(** X15.  What the fast path hands to the addon: every sample is a 16-bit
    value over 32768, so it lies in [-1, 1), and there are never fewer than
    17 600 of them (1100 ms), however short the recording was. *)
Theorem samples_normalised (audioBuffer : list Byte.byte) :
  let samples := float32Array (processedBuffer audioBuffer) in
  Forall (fun q => QArith_base.Qle (QArith_base.Qmake (-1) 1) q
                   /\ QArith_base.Qlt q (QArith_base.Qmake 1 1)) samples
  /\ (Z.to_nat minSamples <= length samples)%nat.
Proof.
  intros samples. subst samples. unfold float32Array. split.
  - apply Forall_fmap, int16Array_Forall. intros lo hi.
    unfold compose, normalize, QArith_base.Qle, QArith_base.Qlt. simpl.
    pose proof (int16LE_range lo hi). lia.
  - rewrite length_map. apply int16Array_length_ge.
    rewrite processedBuffer_length. pose proof minBytes_eq.
    rewrite minSamples_eq. lia.
Qed.

End WavContainer.

(** * Further properties of the addon and its wrapper *)

Section TranscribeProperties.
Import WhisperAddon.

(** On a handle that is not Loaded, [transcribe] fails before whisper.cpp
    is called. *)
Lemma transcribe_audio_not_loaded (st : Native) (p : N) (h : WhisperHandle)
    (options : TranscribeOptions) (run : WhisperRun) :
  handles st !! p = Some h -> loaded h = false ->
  transcribe_audio (External p) (Some options) run st
  = ([], Throw {| message := js "Model has been freed" |}).
Proof.
  intros Hp Hl. unfold transcribe_audio. rewrite Hp.
  destruct h as [[c|] [|] path]; try reflexivity. discriminate Hl.
Qed.

(** After [free], the handle is in the heap and not Loaded. *)
Lemma free_model_unloads (st : Native) (p : N) (h : WhisperHandle) :
  handles st !! p = Some h ->
  exists h', handles (fst (free_model (External p) st)) !! p = Some h'
             /\ loaded h' = false.
Proof.
  intros Hp. destruct (loaded h) eqn:Hl.
  - destruct (proj1 (loaded_true h) Hl) as (Hf & c & Hc).
    rewrite (free_model_loaded st p h c Hp Hc Hf). simpl.
    eexists. split; [apply lookup_insert_eq | reflexivity].
  - rewrite (free_model_not_loaded st p h Hp Hl). simpl. eauto.
Qed.


End TranscribeProperties.

Section TranscribeExtras.
Import WhisperAddon.

(** X16.  Use after free fails fast: once [free] was called on a handle,
    [transcribe] on it throws Model has been freed without calling
    whisper.cpp; and once [WhisperCpp.free] has returned, the wrapper's
    [transcribe] throws Model not loaded, again without any call. *)
Theorem transcribe_after_free (st : Native) (p : N) (h : WhisperHandle)
    (o : WhisperCpp) (options : TranscribeOptions) (run : WhisperRun)
    (samples : list QArith_base.Q) (lang promptText : option jsstring) :
  handles st !! p = Some h ->
  handle o = Some (External p) ->
  transcribe_audio (External p) (Some options) run
    (fst (free_model (External p) st))
  = ([], Throw {| message := js "Model has been freed" |})
  /\ (let '(o', st', _) := free o st in
      transcribe o' samples lang promptText run st'
      = ([], Throw {| message := js "Model not loaded. Call load() first." |})).
Proof.
  intros Hp Ho. split.
  - destruct (free_model_unloads st p h Hp) as (h' & Hp' & Hl').
    apply (transcribe_audio_not_loaded _ p h' options run Hp' Hl').
  - unfold free. rewrite Ho. unfold free_model. rewrite Hp.
    destruct (release h) as [h' evs]. reflexivity.
Qed.

Lemma transcribe_after_free_witness :
  transcribe_audio (External 0)
    (Some {| audio := Some []; language := None; prompt := None |})
    {| full_result := 0; full_segments := [] |}
    (fst (free_model (External 0) oneLoaded))
  = ([], Throw {| message := js "Model has been freed" |}).
Proof.
  apply (transcribe_after_free oneLoaded 0
           {| ctx := Some 4096; freed := false; model_path := sampleModel |}
           sampleWrapper
           {| audio := Some []; language := None; prompt := None |}
           {| full_result := 0; full_segments := [] |} [] None None);
    reflexivity.
Defined.



(** X18.  [WhisperCpp.load] loads once: after a load that succeeded, a
    second [load] returns without calling the addon, whatever whisper.cpp
    would answer, and the object still holds the same handle; only after
    [free] does [load] load the model file again. *)
Theorem load_once (o : WhisperCpp) (st : Native) (c : N) (again : option N) :
  handle o = None ->
  let '(o1, st1, r1) := load o (Some c) st in
  r1 = Return tt
  /\ handle o1 = Some (External (next st))
  /\ events st1
     = events st
       ++ [whisper_init_from_file (modelPath o)
             (negb (bool_decide (options o = Some false))) (Some c)]
  /\ load o1 again st1 = (o1, st1, Return tt)
  /\ (let '(o2, st2, _) := free o1 st1 in
      events (snd (fst (load o2 again st2)))
      = events st1
        ++ [whisper_free c;
            whisper_init_from_file (modelPath o)
              (negb (bool_decide (options o = Some false))) again]).
Proof.
  intros Ho. unfold load at 1. rewrite Ho. unfold init_model. simpl.
  split; [reflexivity|]. split; [reflexivity|]. split; [reflexivity|].
  split; [reflexivity|].
  unfold free. simpl. unfold free_model. simpl.
  rewrite lookup_insert_eq. simpl.
  unfold load. simpl. unfold init_model. simpl.
  destruct again; simpl; rewrite <- app_assoc; reflexivity.
Qed.

Lemma load_once_witness :
  let '(o1, st1, r1) :=
    load {| handle := None; modelPath := sampleModel; options := None |}
         (Some 4096) emptyNative in
  r1 = Return tt /\ load o1 (Some 8192) st1 = (o1, st1, Return tt).
Proof.
  pose proof (load_once
                {| handle := None; modelPath := sampleModel; options := None |}
                emptyNative 4096 (Some 8192) eq_refl) as H.
  destruct (load _ (Some 4096) emptyNative) as [[o1 st1] r1].
  destruct H as (H1 & _ & _ & H4 & _). split; assumption.
Defined.

(** X19.  [getInfo] and [transcribe] agree on a handle: [get_info] reports
    the handle's model path, and it reports [loaded = false] exactly when
    [transcribe] with well-formed options refuses with Model has been
    freed, without calling whisper.cpp. *)
Theorem info_agrees_with_transcribe (st : Native) (p : N) (h : WhisperHandle)
    (options : TranscribeOptions) (run : WhisperRun) :
  handles st !! p = Some h ->
  exists b : bool,
    get_info (External p) st = Return (b, model_path h)
    /\ (b = false
        <-> transcribe_audio (External p) (Some options) run st
            = ([], Throw {| message := js "Model has been freed" |})).
Proof.
  intros Hp. exists (loaded h). unfold get_info. rewrite Hp.
  split; [reflexivity|]. split.
  - intros Hl. apply (transcribe_audio_not_loaded st p h options run Hp Hl).
  - unfold transcribe_audio. rewrite Hp.
    destruct h as [[c|] [|] path]; try reflexivity.
    destruct (audio options) as [pcmf32|]; [|intros H; vm_compute in H; discriminate H].
    destruct (bool_decide (full_result run = 0%Z)).
    + destruct (foldl collectSegment _ _). intros H. discriminate H.
    + intros H. discriminate H.
Qed.

Lemma info_agrees_with_transcribe_witness :
  exists b : bool,
    get_info (External 0) (fst (free_model (External 0) oneLoaded))
    = Return (b, sampleModel)
    /\ (b = false
        <-> transcribe_audio (External 0)
              (Some {| audio := Some []; language := None; prompt := None |})
              {| full_result := 0; full_segments := [] |}
              (fst (free_model (External 0) oneLoaded))
            = ([], Throw {| message := js "Model has been freed" |})).
Proof.
  apply (info_agrees_with_transcribe
           (fst (free_model (External 0) oneLoaded)) 0
           {| ctx := None; freed := true; model_path := sampleModel |}).
  reflexivity.
Defined.

End TranscribeExtras.
